(** * Malheur command-line driver (src/malheur.c)

    A shallow embedding of the driver of Malheur: option parsing, task
    selection, the three task functions and start-up / shutdown.  The
    driver is glue around library calls (farray_extract, proto_extract,
    farray_dot, the export, ftable and config functions), so a run is
    modelled by the sequence of external calls it makes (its trace) and by
    the way it ends: normal return, exit(status), or a fatal error report. *)

From Stdlib Require Import ZArith List String Ascii Bool Lia.
From Stdlib Require Import DecimalString.
Import ListNotations.

Local Open Scope string_scope.
Local Open Scope Z_scope.

(** ** C library functions used by the driver *)

Module LibC.

Definition code (c : ascii) : Z := Z.of_N (N_of_ascii c).

Definition isupper (c : ascii) : bool :=
  (65 <=? code c) && (code c <=? 90).

(** tolower(3) in the C locale. *)
Definition tolower (c : ascii) : ascii :=
  if isupper c then ascii_of_N (Z.to_N (code c + 32)) else c.

(** strcasecmp(3): the difference of the first pair of bytes that differ
    after tolower, 0 when there is none.  The end of a string plays the
    part of the terminating NUL byte. *)
Fixpoint strcasecmp (s1 s2 : string) : Z :=
  match s1, s2 with
  | EmptyString, EmptyString => 0
  | EmptyString, String b _ => 0 - code (tolower b)
  | String a _, EmptyString => code (tolower a)
  | String a s1', String b s2' =>
      let d := code (tolower a) - code (tolower b) in
      if d =? 0 then strcasecmp s1' s2' else d
  end.

(** What one call of getopt(3) hands to the caller: the option character
    it returns and the value it leaves in optarg. *)
Record getopt_ret := GetoptRet { ch : ascii; optarg : option string }.

(** Looks an option character up in an option string such as
    "l:s:tr:c:hvV": None when it is not an option, otherwise whether
    the option takes an argument. *)
Fixpoint optstring_find (c : ascii) (optstring : string) : option bool :=
  match optstring with
  | EmptyString => None
  | String o rest =>
      if (Ascii.eqb o c && negb (Ascii.eqb c ":"))%bool then
        match rest with
        | String o' _ => Some (Ascii.eqb o' ":")
        | EmptyString => Some false
        end
      else optstring_find c rest
  end.

(** The option characters packed in one argv element (after its leading
    '-').  [next] is the following argv element, if any; the boolean
    tells whether it was taken as an option argument.  An unknown
    character, or a missing argument, is returned as '?'. *)
Fixpoint getopt_cluster (optstring cs : string) (next : option string)
  : list getopt_ret * bool :=
  match cs with
  | EmptyString => ([], false)
  | String c cs' =>
      match optstring_find c optstring with
      | None =>
          let '(rs, used) := getopt_cluster optstring cs' next in
          (GetoptRet "?" None :: rs, used)
      | Some false =>
          let '(rs, used) := getopt_cluster optstring cs' next in
          (GetoptRet c None :: rs, used)
      | Some true =>
          match cs' with
          | String _ _ => ([GetoptRet c (Some cs')], false)
          | EmptyString =>
              match next with
              | Some a => ([GetoptRet c (Some a)], true)
              | None => ([GetoptRet "?" None], false)
              end
          end
      end
  end.

(** An argv element holds options when it starts with '-' and is longer
    than that; the result is what follows the '-'. *)
Definition option_element (a : string) : option string :=
  match a with
  | String c body =>
      if (Ascii.eqb c "-" && negb (String.eqb body ""))%bool
      then Some body else None
  | EmptyString => None
  end.

(** getopt(3) as POSIX specifies it, called until it returns -1 on the
    elements [argv] that follow the program name: the results of the
    successive calls, and the operands left at argv + optind.  Scanning
    stops at the first element that is not an option, and after "--".
    One of the two library models below; the driver itself is stated
    over whatever getopt its environment has. *)
Fixpoint getopt_scan (optstring : string) (argv : list string)
  : list getopt_ret * list string :=
  match argv with
  | [] => ([], [])
  | a :: rest =>
      match option_element a with
      | Some body =>
          if String.eqb a "--" then ([], rest)
          else
            match rest with
            | [] => (fst (getopt_cluster optstring body None), [])
            | nxt :: rest' =>
                let '(rs, used) := getopt_cluster optstring body (Some nxt) in
                let '(more, operands) :=
                  if used then getopt_scan optstring rest'
                  else getopt_scan optstring rest in
                ((rs ++ more)%list, operands)
            end
      | None => ([], argv)
      end
  end.

(** getopt(3) as the GNU C library runs it by default: argv is permuted
    as it is scanned, so that an element that is not an option is set
    aside as an operand and scanning goes on after it; "--" ends the
    options.  The operands are the elements set aside, in their order,
    and whatever follows "--". *)
Fixpoint getopt_permute (optstring : string) (argv : list string)
  : list getopt_ret * list string :=
  match argv with
  | [] => ([], [])
  | a :: rest =>
      match option_element a with
      | Some body =>
          if String.eqb a "--" then ([], rest)
          else
            match rest with
            | [] => (fst (getopt_cluster optstring body None), [])
            | nxt :: rest' =>
                let '(rs, used) := getopt_cluster optstring body (Some nxt) in
                let '(more, operands) :=
                  if used then getopt_permute optstring rest'
                  else getopt_permute optstring rest in
                ((rs ++ more)%list, operands)
            end
      | None =>
          let '(more, operands) := getopt_permute optstring rest in
          (more, a :: operands)
      end
  end.

Definition EXIT_SUCCESS : Z := 0.

(** Arguments of a printf-style format. *)
Inductive fmt_arg :=
| ArgStr (s : string)
| ArgInt (z : Z).

Definition decimal (z : Z) : string := NilZero.string_of_int (Z.to_int z).

(** The text a printf-style call produces, for the conversions the
    driver uses (%s and %d). *)
Fixpoint render (fmt : string) (args : list fmt_arg) : string :=
  match fmt with
  | String "%" (String "s" rest) =>
      match args with
      | ArgStr s :: args' => (s ++ render rest args')%string
      | _ :: args' => render rest args'
      | [] => render rest []
      end
  | String "%" (String "d" rest) =>
      match args with
      | ArgInt z :: args' => (decimal z ++ render rest args')%string
      | _ :: args' => render rest args'
      | [] => render rest []
      end
  | String c rest => String c (render rest args)
  | EmptyString => EmptyString
  end.

End LibC.
Import LibC.

(** ** Runs: global variables, external calls, and how a run ends *)

(** malheur_task_t (malheur.h). *)
Inductive malheur_task_t := KERNEL | PROTOTYPE | CLUSTER.

(** A 32-bit int: its range, and the value an arithmetic result has in
    it (two's complement wrap-around, which is what the compiled
    [verbose++] does beyond INT_MAX). *)
Definition int_range (z : Z) : Prop := - 2 ^ 31 <= z < 2 ^ 31.

Definition wrap_int (z : Z) : Z := (z + 2 ^ 31) mod 2 ^ 32 - 2 ^ 31.

(** The file-level variables of malheur.c.  A char pointer is an optional
    string (None is NULL); the flag [lookup_table] is only ever FALSE or
    TRUE and is tested for truth.  [verbose] is an int. *)
Record globals := Globals {
  verbose : Z;
  config_file : option string;
  result_file : option string;
  input_file : option string;
  proto_file : option string;
  task : malheur_task_t;
  lookup_table : bool
}.

Definition set_verbose (v : Z) (g : globals) : globals :=
  Globals v (config_file g) (result_file g) (input_file g) (proto_file g)
          (task g) (lookup_table g).
Definition set_config_file (f : option string) (g : globals) : globals :=
  Globals (verbose g) f (result_file g) (input_file g) (proto_file g)
          (task g) (lookup_table g).
Definition set_result_file (f : option string) (g : globals) : globals :=
  Globals (verbose g) (config_file g) f (input_file g) (proto_file g)
          (task g) (lookup_table g).
Definition set_input_file (f : option string) (g : globals) : globals :=
  Globals (verbose g) (config_file g) (result_file g) f (proto_file g)
          (task g) (lookup_table g).
Definition set_proto_file (f : option string) (g : globals) : globals :=
  Globals (verbose g) (config_file g) (result_file g) (input_file g) f
          (task g) (lookup_table g).
Definition set_task (t : malheur_task_t) (g : globals) : globals :=
  Globals (verbose g) (config_file g) (result_file g) (input_file g)
          (proto_file g) t (lookup_table g).
Definition set_lookup_table (b : bool) (g : globals) : globals :=
  Globals (verbose g) (config_file g) (result_file g) (input_file g)
          (proto_file g) (task g) b.

(** The calls a run makes that are visible outside malheur.c, each with
    the arguments that come from the command line. *)
Inductive event :=
| EvPrintVersion
| EvPrintUsage
| EvWarning (msg : string)
| EvAccess (path : string)
| EvConfigInit
| EvConfigReadFile (path : option string)
| EvConfigCheck
| EvConfigPrint
| EvConfigDestroy
| EvFtableInit
| EvFtableDestroy
| EvFarrayExtract (path : option string)
| EvFarrayDestroy
| EvProtoExtract
| EvProtoPrint
| EvExportProto (path : option string)
| EvProtoSaveFile (path : option string)
| EvProtoDestroy
| EvMalloc (size : Z)
| EvFarrayDot
| EvExportKernel (path : option string)
| EvFree.

(** A fatal error report: the format and arguments given to fatal(). *)
Record report := Report { fmt : string; args : list fmt_arg }.

Definition message (r : report) : string := render (fmt r) (args r).

(** The ways a run stops before main returns. *)
Inductive halt :=
| Exited (status : Z)
| FatalError (r : report).

Inductive outcome (A : Type) :=
| Done (a : A) (g : globals)
| Halt (h : halt).
Arguments Done {A} a g.
Arguments Halt {A} h.

(** A piece of the driver: from the globals, the calls made and either a
    result with the new globals or the reason the process stopped. *)
Definition M (A : Type) : Type := globals -> list event * outcome A.

Definition ret {A} (a : A) : M A := fun g => ([], Done a g).

Definition bind {A B} (m : M A) (k : A -> M B) : M B :=
  fun g =>
    match m g with
    | (tr, Done a g') => let '(tr', o) := k a g' in ((tr ++ tr')%list, o)
    | (tr, Halt h) => (tr, Halt h)
    end.

Declare Scope driver_scope.
Delimit Scope driver_scope with driver.
Notation "x <- m ;; k" := (bind m (fun x => k))
  (at level 61, m at next level, right associativity) : driver_scope.
Notation "m ;; k" := (bind m (fun _ => k))
  (at level 61, right associativity) : driver_scope.
Local Open Scope driver_scope.

Definition get : M globals := fun g => ([], Done g g).
Definition modify (f : globals -> globals) : M unit := fun g => ([], Done tt (f g)).
Definition call (e : event) : M unit := fun g => ([e], Done tt g).
Definition when (b : bool) (m : M unit) : M unit := if b then m else ret tt.

(** exit(3). *)
Definition exit {A} (status : Z) : M A := fun _ => ([], Halt (Exited status)).

(** Modelled from the spec: fatal() and warning() come from util.h,
    which is not part of the sources at hand.  The spec calls every error
    of the driver fatal: the error is reported and the run ends there, so
    nothing that follows a call of fatal() is executed.  warning()
    reports and returns. *)
Definition fatal {A} (f : string) (a : list fmt_arg) : M A :=
  fun _ => ([], Halt (FatalError (Report f a))).

Definition warning (msg : string) : M unit := call (EvWarning msg).

Definition trace {A} (r : list event * outcome A) : list event := fst r.
Definition result {A} (r : list event * outcome A) : outcome A := snd r.

Definition is_null (p : option string) : bool :=
  match p with None => true | Some _ => false end.

(** ** The driver *)

Section Driver.

(** What lies outside malheur.c and decides a branch of the driver. *)
Record world := World {
(** getopt(argc, argv, "l:s:tr:c:hvV") of the C library in use, called
    until it returns -1 on the whole of argv: the results of the
    successive calls, and the operands left at argv + optind.  Which
    elements of a command line are options is the library's decision
    (the GNU library accepts options after the operands, a strictly
    POSIX one does not); the driver sees this result only. *)
getopt : list string -> list getopt_ret * list string;
  (** CONFIG_FILE of config.h, the default configuration file. *)
  CONFIG_FILE : string;
  (** access(path, R_OK): 0 when the file is readable. *)
  access : string -> Z;
  (** config_read_file(&cfg, path), CONFIG_TRUE on success, and the
      error text and line it leaves in cfg otherwise. *)
  config_read_file : option string -> Z;
  config_error_text : string;
  config_error_line : Z;
  (** fa->len of the array farray_extract(path) returns. *)
  farray_len : option string -> Z;
  (** Whether malloc(size) returns a block, or NULL. *)
  malloc : Z -> bool
}.

Variable w : world.

(** CONFIG_TRUE of libconfig. *)
Definition CONFIG_TRUE : Z := 1.

Definition initial_globals : globals :=
  Globals 0 (Some (CONFIG_FILE w)) None None None PROTOTYPE false.

Definition print_usage : M unit := call EvPrintUsage.

Definition print_version : M unit := call EvPrintVersion.

(** The body of the getopt loop of parse_options: the switch on the
    option character. *)
Definition parse_options_switch (r : getopt_ret) : M unit :=
  match ch r with
  | "v"%char => modify (fun g => set_verbose (wrap_int (verbose g + 1)) g)
  | "c"%char => modify (set_config_file (optarg r))
  | "r"%char => modify (set_result_file (optarg r))
  | "l"%char | "s"%char => modify (set_proto_file (optarg r))
  | "t"%char => modify (set_lookup_table true)
  | "V"%char => print_version ;; exit EXIT_SUCCESS
  | "h"%char | "?"%char => print_usage ;; exit EXIT_SUCCESS
  | _ => ret tt
  end.

(** while ((ch = getopt(...)) != -1) switch (ch) ... *)
Fixpoint parse_options_loop (rs : list getopt_ret) : M unit :=
  match rs with
  | [] => ret tt
  | r :: rs' => parse_options_switch r ;; parse_options_loop rs'
  end.

(** Argument: Task. *)
Definition parse_options_task (name : string) : M unit :=
  if strcasecmp name "prototype" =? 0 then modify (set_task PROTOTYPE)
  else if strcasecmp name "kernel" =? 0 then modify (set_task KERNEL)
  else if strcasecmp name "cluster" =? 0 then modify (set_task CLUSTER)
  else fatal "Unknown analysis task '%s' for Malheur" [ArgStr name].

(** Argument: Input. *)
Definition parse_options_input (path : string) : M unit :=
  modify (set_input_file (Some path)) ;;
  call (EvAccess path) ;;
  when (negb (access w path =? 0))
       (fatal "Could not access '%s'" [ArgStr path]).

(** Sanity checks. *)
Definition parse_options_sanity : M unit :=
  g <- get ;;
  match task g with
  | PROTOTYPE =>
      when (is_null (proto_file g) && is_null (result_file g))
           (fatal "No output specified. See options '-s' and/or '-r'" [])
  | KERNEL =>
      when (is_null (result_file g))
           (fatal "No output specified. See option '-r'" []) ;;
      when (negb (is_null (proto_file g)))
           (warning "Prototypes will not be extracted in this task")
  | CLUSTER => ret tt
  end.

(** parse_options, on what getopt returns for the command line: the
    option results and the operands that follow them. *)
Definition parse_options_on (rs : list getopt_ret) (operands : list string)
  : M unit :=
  parse_options_loop rs ;;
  match operands with
  | [name; path] =>
      parse_options_task name ;;
      parse_options_input path ;;
      parse_options_sanity
  | _ => fatal "<task> and <input> arguments are required" []
  end.

Definition optstring : string := "l:s:tr:c:hvV".

(** The options and operands of a command line, as getopt reports
    them. *)
Definition scan (argv : list string) : list getopt_ret * list string :=
  getopt w argv.

Definition parse_options (argv : list string) : M unit :=
  parse_options_on (fst (scan argv)) (snd (scan argv)).

(** Determines prototypes for the given malware reports. *)
Definition malheur_prototype : M unit :=
  g <- get ;;
  call (EvFarrayExtract (input_file g)) ;;
  call EvProtoExtract ;;
  when (1 <? verbose g) (call EvProtoPrint) ;;
  when (negb (is_null (result_file g))) (call (EvExportProto (result_file g))) ;;
  when (negb (is_null (proto_file g))) (call (EvProtoSaveFile (proto_file g))) ;;
  call EvProtoDestroy ;;
  call EvFarrayDestroy.

(** Clusters the given malware reports. *)
Definition malheur_cluster : M unit :=
  g <- get ;;
  call (EvFarrayExtract (input_file g)) ;;
  call EvFarrayDestroy.

(** fa->len * fa->len * sizeof(double), in 64-bit unsigned arithmetic
    (size_t on the LP64 platforms Malheur is built for). *)
Definition matrix_size (len : Z) : Z :=
  ((len * len) mod 2 ^ 64 * 8) mod 2 ^ 64.

(** Computes a kernel matrix and saves the result to a file. *)
Definition malheur_kernel : M unit :=
  g <- get ;;
  call (EvFarrayExtract (input_file g)) ;;
  let size := matrix_size (farray_len w (input_file g)) in
  call (EvMalloc size) ;;
  when (negb (malloc w size))
       (fatal "Could not allocate similarity matrix" []) ;;
  call EvFarrayDot ;;
  call (EvExportKernel (result_file g)) ;;
  call EvFree ;;
  call EvFarrayDestroy.

(** Initialize malheur tool. *)
Definition malheur_init (argv : list string) : M unit :=
  parse_options argv ;;
  call EvConfigInit ;;
  g <- get ;;
  call (EvConfigReadFile (config_file g)) ;;
  when (negb (config_read_file w (config_file g) =? CONFIG_TRUE))
       (fatal "Could not read configuration (%s in line %d)"
              [ArgStr (config_error_text w); ArgInt (config_error_line w)]) ;;
  call EvConfigCheck ;;
  when (1 <? verbose g) (call EvConfigPrint) ;;
  when (lookup_table g) (call EvFtableInit).

(** Exits the malheur tool. *)
Definition malheur_exit : M unit :=
  g <- get ;;
  when (lookup_table g) (call EvFtableDestroy) ;;
  call EvConfigDestroy.

(** switch (task) in main. *)
Definition perform_task : M unit :=
  g <- get ;;
  match task g with
  | KERNEL => malheur_kernel
  | PROTOTYPE => malheur_prototype
  | CLUSTER => malheur_cluster
  end.

(** Main function of Malheur. *)
Definition main (argv : list string) : M Z :=
  malheur_init argv ;;
  perform_task ;;
  malheur_exit ;;
  ret EXIT_SUCCESS.

(** A whole run of the program on a command line. *)
Definition run (argv : list string) : list event * outcome Z :=
  main argv initial_globals.

End Driver.

(** ** Reading a command line *)

Definition has_option (c : ascii) (rs : list getopt_ret) : bool :=
  existsb (fun r => Ascii.eqb (ch r) c) rs.

(** The options on which parse_options leaves the program: -V, -h and
    whatever getopt reports as '?'. *)
Definition stops (r : getopt_ret) : bool :=
  (Ascii.eqb (ch r) "V" || Ascii.eqb (ch r) "h" || Ascii.eqb (ch r) "?")%bool.

(** What an option that does not stop the program does to the globals. *)
Definition option_effect (g : globals) (r : getopt_ret) : globals :=
  if Ascii.eqb (ch r) "v" then set_verbose (wrap_int (verbose g + 1)) g
  else if Ascii.eqb (ch r) "c" then set_config_file (optarg r) g
  else if Ascii.eqb (ch r) "r" then set_result_file (optarg r) g
  else if (Ascii.eqb (ch r) "l" || Ascii.eqb (ch r) "s")%bool
       then set_proto_file (optarg r) g
  else if Ascii.eqb (ch r) "t" then set_lookup_table true g
  else g.

(** The value a pointer variable holds after the options [rs]: the
    argument of the last option selected by [p], or [d] without one. *)
Definition last_arg (p : ascii -> bool) (rs : list getopt_ret)
  (d : option string) : option string :=
  fold_left (fun acc r => if p (ch r) then optarg r else acc) rs d.

Definition is_r (c : ascii) : bool := Ascii.eqb c "r".
Definition is_ls (c : ascii) : bool := (Ascii.eqb c "l" || Ascii.eqb c "s")%bool.

(** getopt never returns an option that takes an argument without one. *)
Definition wf_ret (r : getopt_ret) : Prop :=
  optstring_find (ch r) optstring = Some true -> optarg r <> None.

(** A command line that selects a task: no option stops the program
    before the task is looked at, and the operands are a task name,
    case-insensitively [name], and an input. *)
Definition selects (w : world) (argv : list string) (name path : string)
  : Prop :=
  exists arg,
    snd (scan w argv) = [arg; path] /\
    existsb stops (fst (scan w argv)) = false /\
    strcasecmp arg name = 0.

(** Whether option [c] is given on the command line. *)
Definition given (w : world) (c : ascii) (argv : list string) : bool :=
  has_option c (fst (scan w argv)).

(** What getopt guarantees of its results on a command line: an option
    declared with ':' comes with its argument. *)
Definition getopt_sound (w : world) (argv : list string) : Prop :=
  Forall wf_ret (fst (scan w argv)).

Definition is_fatal {A} (o : outcome A) : Prop :=
  exists r, o = Halt (FatalError r).

Definition is_done {A} (o : outcome A) : Prop :=
  exists a g, o = Done a g.

(** The calls that compute over the input collection or write results. *)
Definition computes (e : event) : bool :=
  match e with
  | EvFarrayExtract _ | EvFarrayDestroy | EvProtoExtract | EvProtoPrint
  | EvExportProto _ | EvProtoSaveFile _ | EvProtoDestroy | EvMalloc _
  | EvFarrayDot | EvExportKernel _ | EvFree => true
  | _ => false
  end.

(** The calls that produce a result of an analysis. *)
Definition delivers (e : event) : bool :=
  match e with
  | EvProtoExtract | EvExportProto _ | EvProtoSaveFile _
  | EvFarrayDot | EvExportKernel _ => true
  | _ => false
  end.

Definition is_ftable_init (e : event) : bool :=
  match e with EvFtableInit => true | _ => false end.
Definition is_ftable_destroy (e : event) : bool :=
  match e with EvFtableDestroy => true | _ => false end.

Definition count (p : event -> bool) (tr : list event) : nat :=
  List.length (filter p tr).

(** Whether a text occurs in another. *)
Definition occurs_in (needle hay : string) : bool :=
  match String.index 0 needle hay with Some _ => true | None => false end.

(** A report includes a size when its message shows the size in decimal. *)
Definition includes_size (r : report) (size : Z) : bool :=
  occurs_in (decimal size) (message r).




(** ** Vocabulary of the statements *)

(** Every call [m] makes, from any globals, satisfies [P]. *)
Definition emits {A} (P : event -> bool) (m : M A) : Prop :=
  forall g, forallb P (fst (m g)) = true.

(** The calls parse_options can make. *)
Definition parse_event (e : event) : bool :=
  match e with
  | EvPrintVersion | EvPrintUsage | EvWarning _ | EvAccess _ => true
  | _ => false
  end.

(** The calls of start-up: those of parse_options and of the
    configuration and lookup-table set-up. *)
Definition init_event (e : event) : bool :=
  match e with
  | EvPrintVersion | EvPrintUsage | EvWarning _ | EvAccess _
  | EvConfigInit | EvConfigReadFile _ | EvConfigCheck | EvConfigPrint
  | EvFtableInit => true
  | _ => false
  end.

Definition is_proto_event (e : event) : bool :=
  match e with
  | EvProtoExtract | EvProtoPrint | EvExportProto _ | EvProtoSaveFile _
  | EvProtoDestroy => true
  | _ => false
  end.

(** An -l option rewritten as -s, with the same argument. *)
Definition l_as_s (r : getopt_ret) : getopt_ret :=
  if Ascii.eqb (ch r) "l" then GetoptRet "s" (optarg r) else r.

Definition first_code (s : string) : Z :=
  match s with
  | EmptyString => 0
  | String a _ => code (tolower a)
  end.

Definition is_digit_or_minus (c : ascii) : bool :=
  ((48 <=? code c) && (code c <=? 57) || Ascii.eqb c "-")%bool.

Fixpoint has_char (p : ascii -> bool) (s : string) : bool :=
  match s with
  | EmptyString => false
  | String c s' => (p c || has_char p s')%bool
  end.

Section Vocabulary.

Variable w : world.

(** The globals with which the sanity checks of parse_options run. *)
Definition parsed (argv : list string) (t : malheur_task_t) (path : string)
  : globals :=
  set_input_file (Some path)
    (set_task t (fold_left option_effect (fst (scan w argv)) (initial_globals w))).

(** Which task a name selects. *)
Definition task_of (name : string) : option malheur_task_t :=
  if strcasecmp name "prototype" =? 0 then Some PROTOTYPE
  else if strcasecmp name "kernel" =? 0 then Some KERNEL
  else if strcasecmp name "cluster" =? 0 then Some CLUSTER
  else None.

Definition config_ok (g : globals) : bool :=
  config_read_file w (config_file g) =? CONFIG_TRUE.

Definition config_report : report :=
  Report "Could not read configuration (%s in line %d)"
         [ArgStr (config_error_text w); ArgInt (config_error_line w)].

Definition alloc_report : report :=
  Report "Could not allocate similarity matrix" [].

(** The calls of malheur_init that follow parse_options, when the
    configuration is read. *)
Definition init_calls (g : globals) : list event :=
  [EvConfigInit; EvConfigReadFile (config_file g); EvConfigCheck]
  ++ (if 1 <? verbose g then [EvConfigPrint] else [])
  ++ (if lookup_table g then [EvFtableInit] else []).

Definition exit_calls (g : globals) : list event :=
  (if lookup_table g then [EvFtableDestroy] else []) ++ [EvConfigDestroy].

Definition prototype_calls (g : globals) : list event :=
  [EvFarrayExtract (input_file g); EvProtoExtract]
  ++ (if 1 <? verbose g then [EvProtoPrint] else [])
  ++ (if is_null (result_file g) then [] else [EvExportProto (result_file g)])
  ++ (if is_null (proto_file g) then [] else [EvProtoSaveFile (proto_file g)])
  ++ [EvProtoDestroy; EvFarrayDestroy].

Definition cluster_calls (g : globals) : list event :=
  [EvFarrayExtract (input_file g); EvFarrayDestroy].

Definition kernel_size (g : globals) : Z :=
  matrix_size (farray_len w (input_file g)).

Definition kernel_calls (g : globals) : list event :=
  [EvFarrayExtract (input_file g); EvMalloc (kernel_size g)]
  ++ (if malloc w (kernel_size g)
      then [EvFarrayDot; EvExportKernel (result_file g); EvFree; EvFarrayDestroy]
      else []).

Definition task_calls (g : globals) : list event :=
  match task g with
  | KERNEL => kernel_calls g
  | PROTOTYPE => prototype_calls g
  | CLUSTER => cluster_calls g
  end.

(** The task runs to its end, unless it is the kernel task and the
    matrix cannot be allocated. *)
Definition task_completes (g : globals) : bool :=
  match task g with
  | KERNEL => malloc w (kernel_size g)
  | _ => true
  end.

(** What follows malheur_init in main. *)
Definition after_init : M Z :=
  perform_task w ;; malheur_exit ;; ret EXIT_SUCCESS.

End Vocabulary.

(** ** Sample environments *)

(** getopt of a strictly POSIX library and of the GNU library, on the
    option string of the driver; argv[0] is the program name. *)
Definition posix_getopt (argv : list string) : list getopt_ret * list string :=
  getopt_scan optstring (tl argv).

Definition glibc_getopt (argv : list string) : list getopt_ret * list string :=
  getopt_permute optstring (tl argv).

(** Every file is readable, the configuration loads, the input holds
    three reports and memory is available. *)
Definition friendly : world :=
  World posix_getopt "malheur.cfg" (fun _ => 0) (fun _ => CONFIG_TRUE) "" 0
        (fun _ => 3) (fun _ => true).

(** As [friendly], but malloc returns NULL. *)
Definition out_of_memory : world :=
  World posix_getopt "malheur.cfg" (fun _ => 0) (fun _ => CONFIG_TRUE) "" 0
        (fun _ => 3) (fun _ => false).

(** As [friendly], but no file is readable. *)
Definition unreadable : world :=
  World posix_getopt "malheur.cfg" (fun _ => -1) (fun _ => CONFIG_TRUE) "" 0
        (fun _ => 3) (fun _ => true).

(** The same three environments with the GNU library's getopt. *)
Definition friendly_glibc : world :=
  World glibc_getopt "malheur.cfg" (fun _ => 0) (fun _ => CONFIG_TRUE) "" 0
        (fun _ => 3) (fun _ => true).

Definition out_of_memory_glibc : world :=
  World glibc_getopt "malheur.cfg" (fun _ => 0) (fun _ => CONFIG_TRUE) "" 0
        (fun _ => 3) (fun _ => false).

Definition unreadable_glibc : world :=
  World glibc_getopt "malheur.cfg" (fun _ => -1) (fun _ => CONFIG_TRUE) "" 0
        (fun _ => 3) (fun _ => true).

(** ** Vocabulary of further properties of the driver *)

Definition is_c (c : ascii) : bool := Ascii.eqb c "c".

(** The number of -v options. *)
Definition count_v (rs : list getopt_ret) : nat :=
  List.length (filter (fun r => Ascii.eqb (ch r) "v") rs).

(** The globals the option loop leaves, variable by variable. *)
Definition options_globals (rs : list getopt_ret) (g : globals) : globals :=
  Globals (wrap_int (verbose g + Z.of_nat (count_v rs)))
          (last_arg is_c rs (config_file g))
          (last_arg is_r rs (result_file g))
          (input_file g)
          (last_arg is_ls rs (proto_file g))
          (task g)
          (lookup_table g || has_option "t" rs).

(** The report on which the sanity checks of parse_options stop, if they
    do, and the warning they give otherwise. *)
Definition sanity_failure (g : globals) : option report :=
  match task g with
  | PROTOTYPE =>
      if (is_null (proto_file g) && is_null (result_file g))%bool
      then Some (Report "No output specified. See options '-s' and/or '-r'" [])
      else None
  | KERNEL =>
      if is_null (result_file g)
      then Some (Report "No output specified. See option '-r'" [])
      else None
  | CLUSTER => None
  end.

Definition sanity_warning (g : globals) : list event :=
  match task g with
  | KERNEL =>
      if is_null (proto_file g) then []
      else [EvWarning "Prototypes will not be extracted in this task"]
  | _ => []
  end.

(** The calls made before the first one that satisfies [p]. *)
Fixpoint prefix_until (p : event -> bool) (tr : list event) : list event :=
  match tr with
  | [] => []
  | e :: tr' => if p e then [] else e :: prefix_until p tr'
  end.

Definition is_farray_extract (e : event) : bool :=
  match e with EvFarrayExtract _ => true | _ => false end.
Definition is_farray_destroy (e : event) : bool :=
  match e with EvFarrayDestroy => true | _ => false end.
Definition is_proto_extract (e : event) : bool :=
  match e with EvProtoExtract => true | _ => false end.
Definition is_proto_destroy (e : event) : bool :=
  match e with EvProtoDestroy => true | _ => false end.
Definition is_malloc (e : event) : bool :=
  match e with EvMalloc _ => true | _ => false end.
Definition is_free (e : event) : bool :=
  match e with EvFree => true | _ => false end.
Definition is_config_init (e : event) : bool :=
  match e with EvConfigInit => true | _ => false end.
Definition is_config_destroy (e : event) : bool :=
  match e with EvConfigDestroy => true | _ => false end.
Definition is_export_kernel (e : event) : bool :=
  match e with EvExportKernel _ => true | _ => false end.

Definition is_farray_dot (e : event) : bool :=
  match e with EvFarrayDot => true | _ => false end.
Definition is_config_check (e : event) : bool :=
  match e with EvConfigCheck => true | _ => false end.
Definition is_config_print (e : event) : bool :=
  match e with EvConfigPrint => true | _ => false end.
Definition is_proto_print (e : event) : bool :=
  match e with EvProtoPrint => true | _ => false end.

(** The calls that write a result of the prototype task. *)
Definition is_proto_output (e : event) : bool :=
  match e with EvExportProto _ | EvProtoSaveFile _ => true | _ => false end.

(** The formats of the fatal errors of the driver. *)
Definition fatal_formats : list string :=
  ["<task> and <input> arguments are required";
   "Unknown analysis task '%s' for Malheur";
   "Could not access '%s'";
   "No output specified. See options '-s' and/or '-r'";
   "No output specified. See option '-r'";
   "Could not read configuration (%s in line %d)";
   "Could not allocate similarity matrix"].

(** The ways a run can go, each with its trace and its end. *)
Inductive run_spec (w : world) (argv : list string)
  : list event * outcome Z -> Prop :=
| RunStop e :
    existsb stops (fst (scan w argv)) = true ->
    e = EvPrintVersion \/ e = EvPrintUsage ->
    run_spec w argv ([e], Halt (Exited EXIT_SUCCESS))
| RunOperands :
    existsb stops (fst (scan w argv)) = false ->
    List.length (snd (scan w argv)) <> 2%nat ->
    run_spec w argv
      ([], Halt (FatalError
         (Report "<task> and <input> arguments are required" [])))
| RunUnknownTask name path :
    existsb stops (fst (scan w argv)) = false ->
    snd (scan w argv) = [name; path] ->
    task_of name = None ->
    run_spec w argv
      ([], Halt (FatalError
         (Report "Unknown analysis task '%s' for Malheur" [ArgStr name])))
| RunNoAccess name path t :
    existsb stops (fst (scan w argv)) = false ->
    snd (scan w argv) = [name; path] ->
    task_of name = Some t ->
    access w path <> 0 ->
    run_spec w argv
      ([EvAccess path],
       Halt (FatalError (Report "Could not access '%s'" [ArgStr path])))
| RunNoOutput name path t rep :
    existsb stops (fst (scan w argv)) = false ->
    snd (scan w argv) = [name; path] ->
    task_of name = Some t ->
    access w path = 0 ->
    sanity_failure (parsed w argv t path) = Some rep ->
    run_spec w argv ([EvAccess path], Halt (FatalError rep))
| RunNoConfig name path t :
    existsb stops (fst (scan w argv)) = false ->
    snd (scan w argv) = [name; path] ->
    task_of name = Some t ->
    access w path = 0 ->
    sanity_failure (parsed w argv t path) = None ->
    config_ok w (parsed w argv t path) = false ->
    run_spec w argv
      ((EvAccess path :: sanity_warning (parsed w argv t path)
        ++ [EvConfigInit;
            EvConfigReadFile (config_file (parsed w argv t path))])%list,
       Halt (FatalError (config_report w)))
| RunNoMemory name path t :
    existsb stops (fst (scan w argv)) = false ->
    snd (scan w argv) = [name; path] ->
    task_of name = Some t ->
    access w path = 0 ->
    sanity_failure (parsed w argv t path) = None ->
    config_ok w (parsed w argv t path) = true ->
    task_completes w (parsed w argv t path) = false ->
    run_spec w argv
      ((EvAccess path :: sanity_warning (parsed w argv t path)
        ++ init_calls (parsed w argv t path)
        ++ task_calls w (parsed w argv t path))%list,
       Halt (FatalError alloc_report))
| RunDone name path t :
    existsb stops (fst (scan w argv)) = false ->
    snd (scan w argv) = [name; path] ->
    task_of name = Some t ->
    access w path = 0 ->
    sanity_failure (parsed w argv t path) = None ->
    config_ok w (parsed w argv t path) = true ->
    task_completes w (parsed w argv t path) = true ->
    run_spec w argv
      ((EvAccess path :: sanity_warning (parsed w argv t path)
        ++ init_calls (parsed w argv t path)
        ++ task_calls w (parsed w argv t path)
        ++ exit_calls (parsed w argv t path))%list,
       Done EXIT_SUCCESS (parsed w argv t path)).

(** * Proofs *)

(** ** The monad *)

Lemma bind_done {A B} (m : M A) (k : A -> M B) g tr a g' :
  m g = (tr, Done a g') ->
  bind m k g = ((tr ++ fst (k a g'))%list, snd (k a g')).
Proof.
  intros H. unfold bind. rewrite H. destruct (k a g'); reflexivity.
Qed.

Lemma bind_halt {A B} (m : M A) (k : A -> M B) g tr h :
  m g = (tr, Halt h) -> bind m k g = (tr, Halt h).
Proof. intros H. unfold bind. rewrite H. reflexivity. Qed.

Lemma bind_silent {A B} (m : M A) (k : A -> M B) g a g' :
  m g = ([], Done a g') -> bind m k g = k a g'.
Proof.
  intros H. rewrite (bind_done _ _ _ _ _ _ H). destruct (k a g'); reflexivity.
Qed.

Lemma pair_eta {A B} (p : A * B) : p = (fst p, snd p).
Proof. destruct p; reflexivity. Qed.

(** ** Facts on the C library functions *)







(** ** Facts on getopt *)

Lemma getopt_cluster_wf os cs next :
  optstring_find "?" os <> Some true ->
  Forall (fun r => optstring_find (ch r) os = Some true -> optarg r <> None)
         (fst (getopt_cluster os cs next)).
Proof.
  intros Hq. induction cs as [|c cs IH]; [constructor|].
  cbn [getopt_cluster].
  destruct (optstring_find c os) as [[|]|] eqn:E.
  - destruct cs; [destruct next|]; cbn [fst]; repeat constructor;
      cbn [ch optarg]; try discriminate. intros H. contradiction.
  - destruct (getopt_cluster os cs next) as [rs used]; cbn [fst] in *.
    constructor; [|exact IH]. cbn [ch optarg]. rewrite E. discriminate.
  - destruct (getopt_cluster os cs next) as [rs used]; cbn [fst] in *.
    constructor; [|exact IH]. cbn [ch optarg]. intros H. contradiction.
Qed.

Lemma getopt_scan_wf os argv :
  optstring_find "?" os <> Some true ->
  Forall (fun r => optstring_find (ch r) os = Some true -> optarg r <> None)
         (fst (getopt_scan os argv)).
Proof.
  intros Hq.
  induction argv as [argv IH] using (well_founded_induction
    (Wf_nat.well_founded_ltof _ (@List.length string))).
  destruct argv as [|a rest]; [constructor|].
  cbn [getopt_scan].
  destruct (option_element a) as [body|]; [|constructor].
  destruct (String.eqb a "--"); [constructor|].
  destruct rest as [|nxt rest']; [apply getopt_cluster_wf, Hq|].
  pose proof (getopt_cluster_wf os body (Some nxt) Hq) as Hc.
  destruct (getopt_cluster os body (Some nxt)) as [rs used].
  assert (Forall (fun r => optstring_find (ch r) os = Some true -> optarg r <> None)
            (fst (if used then getopt_scan os rest'
                  else getopt_scan os (nxt :: rest')))) as Hm.
  { destruct used; apply IH; unfold Wf_nat.ltof; cbn [List.length]; lia. }
  destruct (if used then getopt_scan os rest'
            else getopt_scan os (nxt :: rest')) as [more operands].
  cbn [fst] in *. apply Forall_app. split; assumption.
Qed.

Lemma getopt_permute_wf os argv :
  optstring_find "?" os <> Some true ->
  Forall (fun r => optstring_find (ch r) os = Some true -> optarg r <> None)
         (fst (getopt_permute os argv)).
Proof.
  intros Hq.
  induction argv as [argv IH] using (well_founded_induction
    (Wf_nat.well_founded_ltof _ (@List.length string))).
  destruct argv as [|a rest]; [constructor|].
  cbn [getopt_permute].
  destruct (option_element a) as [body|].
  - destruct (String.eqb a "--"); [constructor|].
    destruct rest as [|nxt rest']; [apply getopt_cluster_wf, Hq|].
    pose proof (getopt_cluster_wf os body (Some nxt) Hq) as Hc.
    destruct (getopt_cluster os body (Some nxt)) as [rs used].
    assert (Forall (fun r => optstring_find (ch r) os = Some true ->
                             optarg r <> None)
              (fst (if used then getopt_permute os rest'
                    else getopt_permute os (nxt :: rest')))) as Hm.
    { destruct used; apply IH; unfold Wf_nat.ltof; cbn [List.length]; lia. }
    destruct (if used then getopt_permute os rest'
              else getopt_permute os (nxt :: rest')) as [more operands].
    cbn [fst] in *. apply Forall_app. split; assumption.
  - assert (Forall (fun r => optstring_find (ch r) os = Some true ->
                             optarg r <> None)
              (fst (getopt_permute os rest))) as Hm
      by (apply IH; unfold Wf_nat.ltof; cbn [List.length]; lia).
    destruct (getopt_permute os rest) as [more operands]. exact Hm.
Qed.

(** Both library models keep getopt's guarantee, on every command line. *)
Lemma posix_getopt_sound argv : Forall wf_ret (fst (posix_getopt argv)).
Proof. apply getopt_scan_wf. discriminate. Qed.

Lemma glibc_getopt_sound argv : Forall wf_ret (fst (glibc_getopt argv)).
Proof. apply getopt_permute_wf. discriminate. Qed.

(** ** Facts on option parsing *)

Section Parsing.

Variable w : world.

(** The switch of parse_options, by comparisons of the option
    character. *)
Lemma parse_options_switch_eq r :
  parse_options_switch r =
  if Ascii.eqb (ch r) "V" then (print_version ;; exit EXIT_SUCCESS)
  else if (Ascii.eqb (ch r) "h" || Ascii.eqb (ch r) "?")%bool
       then (print_usage ;; exit EXIT_SUCCESS)
  else modify (fun g => option_effect g r).
Proof.
  unfold parse_options_switch, option_effect.
  destruct r as [c oa]; simpl.
  destruct c as [b0 b1 b2 b3 b4 b5 b6 b7].
  destruct b0, b1, b2, b3, b4, b5, b6, b7; reflexivity.
Qed.

Lemma parse_options_switch_go r g :
  stops r = false ->
  parse_options_switch r g = ([], Done tt (option_effect g r)).
Proof.
  intros H. rewrite parse_options_switch_eq. unfold stops in H.
  apply orb_false_elim in H as [H H3]. apply orb_false_elim in H as [H1 H2].
  rewrite H1, H2, H3. reflexivity.
Qed.

Lemma parse_options_switch_stop r g :
  stops r = true ->
  parse_options_switch r g =
    ([if Ascii.eqb (ch r) "V" then EvPrintVersion else EvPrintUsage],
     Halt (Exited EXIT_SUCCESS)).
Proof.
  intros H. rewrite parse_options_switch_eq. unfold stops in H.
  destruct (Ascii.eqb (ch r) "V"); [reflexivity|].
  simpl in H. rewrite H. reflexivity.
Qed.

Lemma parse_options_loop_go rs g :
  existsb stops rs = false ->
  parse_options_loop rs g =
    ([], Done tt (fold_left option_effect rs g)).
Proof.
  revert g. induction rs as [|r rs IH]; intros g H; simpl in *; [reflexivity|].
  apply orb_false_elim in H as [Hr Hrs].
  rewrite (bind_silent _ _ _ _ _ (parse_options_switch_go r g Hr)).
  apply IH, Hrs.
Qed.

Lemma parse_options_loop_stop rs g :
  existsb stops rs = true ->
  exists e, (e = EvPrintVersion \/ e = EvPrintUsage) /\
    parse_options_loop rs g = ([e], Halt (Exited EXIT_SUCCESS)).
Proof.
  revert g. induction rs as [|r rs IH]; intros g H; simpl in *; [discriminate|].
  destruct (stops r) eqn:Hr.
  - rewrite (bind_halt _ _ _ _ _ (parse_options_switch_stop r g Hr)).
    eexists; split; [|reflexivity].
    destruct (Ascii.eqb (ch r) "V"); auto.
  - rewrite (bind_silent _ _ _ _ _ (parse_options_switch_go r g Hr)).
    apply IH, H.
Qed.

(** The globals after the options. *)
Lemma result_file_after rs g :
  result_file (fold_left option_effect rs g) = last_arg is_r rs (result_file g).
Proof.
  unfold last_arg. revert g. induction rs as [|r rs IH]; intros g; simpl;
    [reflexivity|].
  rewrite IH. f_equal. unfold option_effect, is_r.
  destruct (Ascii.eqb_spec (ch r) "v") as [E|_]; [rewrite ?E; reflexivity|].
  destruct (Ascii.eqb_spec (ch r) "c") as [E|_]; [rewrite ?E; reflexivity|].
  destruct (Ascii.eqb_spec (ch r) "r") as [E|_]; [rewrite ?E; reflexivity|].
  destruct (Ascii.eqb (ch r) "l" || Ascii.eqb (ch r) "s")%bool; [reflexivity|].
  destruct (Ascii.eqb (ch r) "t"); reflexivity.
Qed.

Lemma proto_file_after rs g :
  proto_file (fold_left option_effect rs g) = last_arg is_ls rs (proto_file g).
Proof.
  unfold last_arg. revert g. induction rs as [|r rs IH]; intros g; simpl;
    [reflexivity|].
  rewrite IH. f_equal. unfold option_effect, is_ls.
  destruct (Ascii.eqb_spec (ch r) "v") as [E|_]; [rewrite ?E; reflexivity|].
  destruct (Ascii.eqb_spec (ch r) "c") as [E|_]; [rewrite ?E; reflexivity|].
  destruct (Ascii.eqb_spec (ch r) "r") as [E|_]; [rewrite ?E; reflexivity|].
  destruct (Ascii.eqb (ch r) "l" || Ascii.eqb (ch r) "s")%bool; [reflexivity|].
  destruct (Ascii.eqb (ch r) "t"); reflexivity.
Qed.

Lemma lookup_table_after rs g :
  lookup_table (fold_left option_effect rs g) =
  (lookup_table g || has_option "t" rs)%bool.
Proof.
  revert g. induction rs as [|r rs IH]; intros g; simpl;
    [rewrite orb_false_r; reflexivity|].
  rewrite IH, orb_assoc. f_equal. unfold option_effect.
  destruct (Ascii.eqb_spec (ch r) "t") as [E|E].
  - rewrite E. cbn. symmetry. apply orb_true_r.
  - rewrite orb_false_r.
    repeat match goal with |- context [if ?b then _ else _] => destruct b end;
      reflexivity.
Qed.

(** A pointer set by an option is NULL exactly when the option was not
    given. *)
Lemma last_arg_null p rs d :
  (forall x, p x = true -> optstring_find x optstring = Some true) ->
  Forall wf_ret rs ->
  is_null (last_arg p rs d) =
  (is_null d && negb (existsb (fun r => p (ch r)) rs))%bool.
Proof.
  intros Hp Hwf. unfold last_arg. revert d.
  induction Hwf as [|r rs Hr _ IH]; intros d; simpl;
    [rewrite andb_true_r; reflexivity|].
  rewrite IH. destruct (p (ch r)) eqn:E; simpl; [|reflexivity].
  rewrite andb_false_r.
  destruct (optarg r) eqn:Ho; [reflexivity|].
  exfalso. apply (Hr (Hp _ E)). exact Ho.
Qed.

Lemma is_ls_options rs :
  existsb (fun r => is_ls (ch r)) rs = (has_option "l" rs || has_option "s" rs)%bool.
Proof.
  unfold has_option, is_ls. induction rs as [|r rs IH]; simpl; [reflexivity|].
  rewrite IH.
  destruct (Ascii.eqb (ch r) "l"), (Ascii.eqb (ch r) "s"),
    (existsb (fun r0 => Ascii.eqb (ch r0) "l") rs),
    (existsb (fun r0 => Ascii.eqb (ch r0) "s") rs); reflexivity.
Qed.

Lemma is_r_takes_arg x : is_r x = true -> optstring_find x optstring = Some true.
Proof. unfold is_r. intros H. apply Ascii.eqb_eq in H. subst. reflexivity. Qed.

Lemma is_ls_takes_arg x : is_ls x = true -> optstring_find x optstring = Some true.
Proof.
  unfold is_ls. intros H. apply orb_prop in H as [H|H];
    apply Ascii.eqb_eq in H; subst; reflexivity.
Qed.

Lemma parsed_result_file argv t path :
  getopt_sound w argv ->
  is_null (result_file (parsed w argv t path)) = negb (given w "r" argv).
Proof.
  intros Hwf. unfold parsed, given. cbn [result_file set_input_file set_task].
  rewrite result_file_after, (last_arg_null _ _ _ is_r_takes_arg Hwf).
  reflexivity.
Qed.

Lemma parsed_proto_file argv t path :
  getopt_sound w argv ->
  is_null (proto_file (parsed w argv t path)) =
  negb (given w "l" argv || given w "s" argv).
Proof.
  intros Hwf. unfold parsed, given. cbn [proto_file set_input_file set_task].
  rewrite proto_file_after, (last_arg_null _ _ _ is_ls_takes_arg Hwf).
  rewrite is_ls_options. reflexivity.
Qed.

Lemma parsed_lookup_table argv t path :
  lookup_table (parsed w argv t path) = given w "t" argv.
Proof.
  unfold parsed, given. cbn [lookup_table set_input_file set_task].
  rewrite lookup_table_after. reflexivity.
Qed.

Lemma parsed_task argv t path : task (parsed w argv t path) = t.
Proof. reflexivity. Qed.

Lemma parse_options_task_eq name g :
  parse_options_task name g =
  match task_of name with
  | Some t => ([], Done tt (set_task t g))
  | None => ([], Halt (FatalError
              (Report "Unknown analysis task '%s' for Malheur" [ArgStr name])))
  end.
Proof.
  unfold parse_options_task, task_of.
  repeat match goal with |- context [if ?b then _ else _] => destruct b end;
    reflexivity.
Qed.

Lemma parse_options_input_eq path g :
  parse_options_input w path g =
  ([EvAccess path],
   if access w path =? 0 then Done tt (set_input_file (Some path) g)
   else Halt (FatalError (Report "Could not access '%s'" [ArgStr path]))).
Proof.
  unfold parse_options_input, bind, modify, call, when.
  destruct (access w path =? 0); reflexivity.
Qed.

Lemma parse_options_sanity_eq g :
  parse_options_sanity g =
  match task g with
  | PROTOTYPE =>
      ([], if (is_null (proto_file g) && is_null (result_file g))%bool
           then Halt (FatalError
                  (Report "No output specified. See options '-s' and/or '-r'" []))
           else Done tt g)
  | KERNEL =>
      if is_null (result_file g)
      then ([], Halt (FatalError
                  (Report "No output specified. See option '-r'" [])))
      else (if is_null (proto_file g) then []
            else [EvWarning "Prototypes will not be extracted in this task"],
            Done tt g)
  | CLUSTER => ([], Done tt g)
  end.
Proof.
  unfold parse_options_sanity, bind, get, when.
  destruct (task g); [| |reflexivity].
  - destruct (is_null (result_file g)), (is_null (proto_file g)); reflexivity.
  - destruct (is_null (proto_file g)), (is_null (result_file g)); reflexivity.
Qed.

(** parse_options on a command line whose options do not stop the
    program and whose operands are a task name and an input. *)
Lemma parse_options_operands argv name path :
  snd (scan w argv) = [name; path] ->
  existsb stops (fst (scan w argv)) = false ->
  parse_options w argv (initial_globals w) =
  match task_of name with
  | None => ([], Halt (FatalError
              (Report "Unknown analysis task '%s' for Malheur" [ArgStr name])))
  | Some t =>
      if access w path =? 0 then
        ((EvAccess path :: fst (parse_options_sanity (parsed w argv t path)))%list,
         snd (parse_options_sanity (parsed w argv t path)))
      else ([EvAccess path],
            Halt (FatalError (Report "Could not access '%s'" [ArgStr path])))
  end.
Proof.
  intros Hops Hgo. unfold parse_options, parse_options_on.
  rewrite (bind_silent _ _ _ _ _ (parse_options_loop_go _ _ Hgo)), Hops.
  unfold bind at 1. rewrite parse_options_task_eq.
  destruct (task_of name) as [t|]; [|reflexivity].
  unfold bind. rewrite parse_options_input_eq.
  destruct (access w path =? 0); [|reflexivity].
  fold (parsed w argv t path).
  destruct (parse_options_sanity (parsed w argv t path)); reflexivity.
Qed.

End Parsing.

(** ** Which calls a piece of the driver can make *)

Lemma emits_ret {A} P (a : A) : emits P (ret a).
Proof. intros g. reflexivity. Qed.

Lemma emits_get P : emits P get.
Proof. intros g. reflexivity. Qed.

Lemma emits_modify P f : emits P (modify f).
Proof. intros g. reflexivity. Qed.

Lemma emits_exit {A} P s : emits P (@exit A s).
Proof. intros g. reflexivity. Qed.

Lemma emits_fatal {A} P f a : emits P (@fatal A f a).
Proof. intros g. reflexivity. Qed.

Lemma emits_call P e : P e = true -> emits P (call e).
Proof. intros H g. simpl. rewrite H. reflexivity. Qed.

Lemma emits_bind {A B} P (m : M A) (k : A -> M B) :
  emits P m -> (forall a, emits P (k a)) -> emits P (bind m k).
Proof.
  intros Hm Hk g. unfold bind. specialize (Hm g).
  destruct (m g) as [tr [a g'|h]]; simpl in *; [|exact Hm].
  specialize (Hk a g'). destruct (k a g') as [tr' o]; simpl in *.
  rewrite forallb_app, Hm, Hk. reflexivity.
Qed.

Lemma emits_when P b m : emits P m -> emits P (when b m).
Proof. intros H. destruct b; [exact H | apply emits_ret]. Qed.

Ltac emits_step :=
  first [ apply emits_bind; [|intros ?]
        | apply emits_when
        | apply emits_call; reflexivity
        | apply emits_ret | apply emits_get | apply emits_modify
        | apply emits_exit | apply emits_fatal ].

Lemma parse_event_init e : parse_event e = true -> init_event e = true.
Proof. destruct e; simpl; congruence. Qed.

Lemma init_event_computes e : init_event e = true -> computes e = false.
Proof. destruct e; simpl; congruence. Qed.

Lemma forallb_impl {A} (P Q : A -> bool) l :
  (forall x, P x = true -> Q x = true) ->
  forallb P l = true -> forallb Q l = true.
Proof.
  intros H. rewrite !forallb_forall. intros Hl x Hx. apply H, Hl, Hx.
Qed.

Lemma forallb_none {A} (P Q : A -> bool) l :
  (forall x, P x = true -> Q x = false) ->
  forallb P l = true -> existsb Q l = false.
Proof.
  intros H Hl. induction l as [|x l IH]; simpl in *; [reflexivity|].
  apply andb_prop in Hl as [Hx Hl]. rewrite (H x Hx), (IH Hl). reflexivity.
Qed.

Section Emits.

Variable w : world.

Lemma emits_parse_options_switch r : emits parse_event (parse_options_switch r).
Proof.
  rewrite parse_options_switch_eq. unfold print_version, print_usage.
  destruct (Ascii.eqb (ch r) "V"); [repeat emits_step|].
  destruct (Ascii.eqb (ch r) "h" || Ascii.eqb (ch r) "?")%bool;
    repeat emits_step.
Qed.

Lemma emits_parse_options_loop rs : emits parse_event (parse_options_loop rs).
Proof.
  induction rs as [|r rs IH]; simpl; [apply emits_ret|].
  apply emits_bind; [apply emits_parse_options_switch | intros _; exact IH].
Qed.

Lemma emits_parse_options_task name : emits parse_event (parse_options_task name).
Proof.
  unfold parse_options_task.
  repeat match goal with |- context [if ?b then _ else _] => destruct b end;
    repeat emits_step.
Qed.

Lemma emits_parse_options_sanity : emits parse_event parse_options_sanity.
Proof.
  unfold parse_options_sanity, warning. emits_step; [emits_step|].
  destruct (task a); repeat emits_step.
Qed.

Lemma emits_parse_options argv : emits parse_event (parse_options w argv).
Proof.
  unfold parse_options, parse_options_on.
  apply emits_bind; [apply emits_parse_options_loop | intros _].
  destruct (snd (scan w argv)) as [|name [|path [|x l]]]; try apply emits_fatal.
  apply emits_bind; [apply emits_parse_options_task | intros _].
  apply emits_bind; [|intros _; apply emits_parse_options_sanity].
  unfold parse_options_input. repeat emits_step.
Qed.

Lemma emits_malheur_init argv : emits init_event (malheur_init w argv).
Proof.
  unfold malheur_init.
  apply emits_bind.
  - intros g. apply (forallb_impl _ _ _ parse_event_init).
    apply emits_parse_options.
  - intros _. repeat emits_step.
Qed.

End Emits.

(** ** The shape of a run *)

Section Runs.

Variable w : world.

Lemma malheur_prototype_eq g :
  malheur_prototype g = (prototype_calls g, Done tt g).
Proof.
  unfold malheur_prototype, prototype_calls, bind, get, call, when.
  destruct (1 <? verbose g), (is_null (result_file g)), (is_null (proto_file g));
    reflexivity.
Qed.

Lemma malheur_cluster_eq g :
  malheur_cluster g = (cluster_calls g, Done tt g).
Proof. reflexivity. Qed.

Lemma malheur_kernel_eq g :
  malheur_kernel w g =
  (kernel_calls w g,
   if malloc w (kernel_size w g) then Done tt g
   else Halt (FatalError alloc_report)).
Proof.
  unfold malheur_kernel, kernel_calls, kernel_size, bind, get, call, when.
  destruct (malloc w (matrix_size (farray_len w (input_file g)))); reflexivity.
Qed.

Lemma malheur_exit_eq g : malheur_exit g = (exit_calls g, Done tt g).
Proof.
  unfold malheur_exit, exit_calls, bind, get, call, when.
  destruct (lookup_table g); reflexivity.
Qed.

Lemma perform_task_eq g :
  perform_task w g =
  (task_calls w g,
   if task_completes w g then Done tt g else Halt (FatalError alloc_report)).
Proof.
  unfold perform_task, task_calls, task_completes, bind, get.
  destruct (task g).
  - rewrite malheur_kernel_eq. rewrite app_nil_l. reflexivity.
  - rewrite malheur_prototype_eq. reflexivity.
  - rewrite malheur_cluster_eq. reflexivity.
Qed.

Lemma after_init_eq g :
  after_init w g =
  if task_completes w g
  then ((task_calls w g ++ exit_calls g)%list, Done EXIT_SUCCESS g)
  else (task_calls w g, Halt (FatalError alloc_report)).
Proof.
  unfold after_init, bind. rewrite perform_task_eq.
  destruct (task_completes w g); [|reflexivity].
  rewrite malheur_exit_eq. unfold ret. rewrite app_nil_r. reflexivity.
Qed.

Lemma malheur_init_parse_halt argv tr h :
  parse_options w argv (initial_globals w) = (tr, Halt h) ->
  malheur_init w argv (initial_globals w) = (tr, Halt h).
Proof. intros H. unfold malheur_init. apply bind_halt, H. Qed.

Lemma malheur_init_parse_done argv tr g :
  parse_options w argv (initial_globals w) = (tr, Done tt g) ->
  malheur_init w argv (initial_globals w) =
  if config_ok w g then ((tr ++ init_calls g)%list, Done tt g)
  else ((tr ++ [EvConfigInit; EvConfigReadFile (config_file g)])%list,
        Halt (FatalError (config_report w))).
Proof.
  intros H. unfold malheur_init. rewrite (bind_done _ _ _ _ _ _ H).
  unfold bind, get, call, when, config_ok, init_calls.
  destruct (config_read_file w (config_file g) =? CONFIG_TRUE);
    [|reflexivity].
  destruct (1 <? verbose g), (lookup_table g); reflexivity.
Qed.

Lemma run_init_halt argv tr h :
  malheur_init w argv (initial_globals w) = (tr, Halt h) ->
  run w argv = (tr, Halt h).
Proof. intros H. unfold run, main. apply bind_halt, H. Qed.

Lemma run_init_done argv tr g :
  malheur_init w argv (initial_globals w) = (tr, Done tt g) ->
  run w argv = ((tr ++ fst (after_init w g))%list, snd (after_init w g)).
Proof.
  intros H. unfold run, main. rewrite (bind_done _ _ _ _ _ _ H). reflexivity.
Qed.

(** parse_options returns only on a command line that selects a task
    and names a readable input, with the globals the options set. *)
Lemma parse_options_done_inv argv tr g :
  parse_options w argv (initial_globals w) = (tr, Done tt g) ->
  exists name path t,
    snd (scan w argv) = [name; path] /\
    existsb stops (fst (scan w argv)) = false /\
    task_of name = Some t /\
    access w path = 0 /\
    g = parsed w argv t path.
Proof.
  intros H.
  destruct (existsb stops (fst (scan w argv))) eqn:Hs.
  { unfold parse_options, parse_options_on in H.
    destruct (parse_options_loop_stop _ (initial_globals w) Hs) as (e & _ & He).
    rewrite (bind_halt _ _ _ _ _ He) in H. discriminate. }
  destruct (snd (scan w argv)) as [|name [|path [|x l]]] eqn:Hops;
    try (unfold parse_options, parse_options_on in H;
         rewrite (bind_silent _ _ _ _ _ (parse_options_loop_go _ _ Hs)), Hops in H;
         discriminate).
  rewrite (parse_options_operands w argv name path Hops Hs) in H.
  destruct (task_of name) as [t|] eqn:Ht; [|discriminate].
  destruct (Z.eqb_spec (access w path) 0) as [Ha|Ha]; [|discriminate].
  exists name, path, t. repeat split; try assumption.
  rewrite parse_options_sanity_eq in H.
  destruct (task (parsed w argv t path));
    repeat match type of H with
           | context [if ?b then _ else _] => destruct b
           end; simpl in H; congruence.
Qed.

Lemma count_app p (l1 l2 : list event) :
  count p (l1 ++ l2) = (count p l1 + count p l2)%nat.
Proof. unfold count. rewrite filter_app, length_app. reflexivity. Qed.

Lemma count_none p P (l : list event) :
  (forall e, P e = true -> p e = false) ->
  forallb P l = true -> count p l = 0%nat.
Proof.
  intros H Hl. unfold count. induction l as [|e l IH]; simpl in *; [reflexivity|].
  apply andb_prop in Hl as [He Hl]. rewrite (H e He). apply IH, Hl.
Qed.

End Runs.

(** ** The cluster task *)

(** C1.  The claim is that malheur_cluster computes and returns a
    clustering of the loaded collection.  The code does not: from any
    globals, malheur_cluster calls farray_extract on the input and then
    farray_destroy, and nothing else, so no call that produces or writes a
    result is made.  On the command line
    [malheur -r out cluster in], in an environment where every step
    succeeds, the whole run makes no such call either, although a result
    file is named. *)
Theorem malheur_cluster_only_loads (g : globals) :
  malheur_cluster g =
    ([EvFarrayExtract (input_file g); EvFarrayDestroy], Done tt g) /\
  existsb delivers (trace (malheur_cluster g)) = false /\
  run friendly ["malheur"; "-r"; "out"; "cluster"; "in"] =
    ([EvAccess "in"; EvConfigInit; EvConfigReadFile (Some "malheur.cfg");
      EvConfigCheck; EvFarrayExtract (Some "in"); EvFarrayDestroy;
      EvConfigDestroy],
     Done EXIT_SUCCESS
          (Globals 0 (Some "malheur.cfg") (Some "out") (Some "in") None
                   CLUSTER false)).
Proof.
  split; [reflexivity|]. split; [reflexivity|]. vm_compute. reflexivity.
Qed.

(** ** Allocation failure in the kernel task *)

Lemma decimal_head z :
  exists c s, decimal z = String c s /\ is_digit_or_minus c = true.
Proof.
  unfold decimal. destruct (Z.to_int z) as [d|d].
  - destruct d; simpl; eauto.
  - simpl. eauto.
Qed.

Lemma substring_head n c s hay :
  substring n (S (String.length s)) hay = String c s -> String.get n hay = Some c.
Proof.
  revert n. induction hay as [|h hay IH]; intros [|n]; simpl; try discriminate.
  - intros H. congruence.
  - apply IH.
Qed.

Lemma get_has_char p n c hay :
  String.get n hay = Some c -> p c = true -> has_char p hay = true.
Proof.
  revert n. induction hay as [|h hay IH]; intros [|n]; simpl; try discriminate.
  - intros [= ->] ->. reflexivity.
  - intros H Hp. rewrite (IH n H Hp). apply orb_true_r.
Qed.

(** A text without digit or minus sign shows no number. *)
Lemma no_number_occurs z hay :
  has_char is_digit_or_minus hay = false -> occurs_in (decimal z) hay = false.
Proof.
  intros Hh. unfold occurs_in.
  destruct (index 0 (decimal z) hay) as [n|] eqn:E; [|reflexivity].
  apply index_correct1 in E.
  destruct (decimal_head z) as (c & s & Hd & Hc). rewrite Hd in E.
  apply substring_head in E.
  rewrite (get_has_char _ _ _ _ E Hc) in Hh. discriminate.
Qed.

(** C2, counterexample.  [malheur -r out kernel in] on an input of three
    reports when malloc fails: the allocation of 3 * 3 * 8 = 72 bytes is
    attempted, and the fatal report is the bare text
    "Could not allocate similarity matrix", in which 72 does not occur. *)
Lemma kernel_alloc_report_omits_size :
  run out_of_memory ["malheur"; "-r"; "out"; "kernel"; "in"] =
    ([EvAccess "in"; EvConfigInit; EvConfigReadFile (Some "malheur.cfg");
      EvConfigCheck; EvFarrayExtract (Some "in"); EvMalloc 72],
     Halt (FatalError (Report "Could not allocate similarity matrix" []))) /\
  message (Report "Could not allocate similarity matrix" []) =
    "Could not allocate similarity matrix" /\
  includes_size (Report "Could not allocate similarity matrix" []) 72 = false.
Proof. repeat split; vm_compute; reflexivity. Qed.

(** C2, as amended.  Whenever the allocation of the similarity matrix
    fails, malheur_kernel stops after farray_extract and malloc with a
    fatal report whose format is the fixed text
    "Could not allocate similarity matrix" and which has no argument: the
    message is the same for every size, and shows no size at all. *)
Theorem malheur_kernel_alloc_failure (w : world) (g : globals) :
  malloc w (matrix_size (farray_len w (input_file g))) = false ->
  malheur_kernel w g =
    ([EvFarrayExtract (input_file g);
      EvMalloc (matrix_size (farray_len w (input_file g)))],
     Halt (FatalError (Report "Could not allocate similarity matrix" []))) /\
  message (Report "Could not allocate similarity matrix" []) =
    "Could not allocate similarity matrix" /\
  forall size,
    includes_size (Report "Could not allocate similarity matrix" []) size = false.
Proof.
  intros H. split; [|split].
  - rewrite malheur_kernel_eq. unfold kernel_calls, kernel_size.
    rewrite H. reflexivity.
  - reflexivity.
  - intros size. unfold includes_size. apply no_number_occurs.
    vm_compute. reflexivity.
Qed.

(** An instance: three reports and no memory. *)
Lemma malheur_kernel_alloc_failure_witness :
  malloc out_of_memory
    (matrix_size (farray_len out_of_memory
       (input_file (Globals 0 None (Some "out") (Some "in") None KERNEL false))))
    = false /\
  malheur_kernel out_of_memory
    (Globals 0 None (Some "out") (Some "in") None KERNEL false) =
    ([EvFarrayExtract (Some "in"); EvMalloc 72],
     Halt (FatalError (Report "Could not allocate similarity matrix" []))).
Proof.
  split; [reflexivity|].
  apply (malheur_kernel_alloc_failure out_of_memory
           (Globals 0 None (Some "out") (Some "in") None KERNEL false)).
  reflexivity.
Defined.

(** ** Task selection *)

Lemma strcasecmp_first s t : strcasecmp s t = 0 -> first_code s = first_code t.
Proof.
  destruct s as [|a s], t as [|b t]; simpl; try lia.
  destruct (Z.eqb_spec (code (tolower a) - code (tolower b)) 0); lia.
Qed.

Lemma task_of_prototype name :
  strcasecmp name "prototype" = 0 -> task_of name = Some PROTOTYPE.
Proof. intros H. unfold task_of. rewrite H. reflexivity. Qed.

Lemma task_of_kernel name :
  strcasecmp name "kernel" = 0 -> task_of name = Some KERNEL.
Proof.
  intros H. unfold task_of. rewrite H.
  destruct (Z.eqb_spec (strcasecmp name "prototype") 0) as [E|_]; [|reflexivity].
  apply strcasecmp_first in H, E. rewrite H in E. discriminate.
Qed.

Lemma task_of_cluster name :
  strcasecmp name "cluster" = 0 -> task_of name = Some CLUSTER.
Proof.
  intros H. unfold task_of. rewrite H.
  destruct (Z.eqb_spec (strcasecmp name "prototype") 0) as [E|_].
  { apply strcasecmp_first in H, E. rewrite H in E. discriminate. }
  destruct (Z.eqb_spec (strcasecmp name "kernel") 0) as [E|_]; [|reflexivity].
  apply strcasecmp_first in H, E. rewrite H in E. discriminate.
Qed.





(** ** Whole runs *)

Lemma run_parse_halt w argv tr h :
  parse_options w argv (initial_globals w) = (tr, Halt h) ->
  run w argv = (tr, Halt h).
Proof. intros H. apply run_init_halt, malheur_init_parse_halt, H. Qed.

Lemma run_parse_done w argv tr g :
  parse_options w argv (initial_globals w) = (tr, Done tt g) ->
  run w argv =
  if config_ok w g then
    if task_completes w g
    then ((tr ++ init_calls g ++ task_calls w g ++ exit_calls g)%list,
          Done EXIT_SUCCESS g)
    else ((tr ++ init_calls g ++ task_calls w g)%list,
          Halt (FatalError alloc_report))
  else ((tr ++ [EvConfigInit; EvConfigReadFile (config_file g)])%list,
        Halt (FatalError (config_report w))).
Proof.
  intros H. pose proof (malheur_init_parse_done w argv tr g H) as Hi.
  destruct (config_ok w g).
  - rewrite (run_init_done w argv _ _ Hi), after_init_eq.
    destruct (task_completes w g); cbn [fst snd]; rewrite <- !app_assoc;
      reflexivity.
  - apply run_init_halt, Hi.
Qed.

(** parse_options on a command line that selects a task. *)
Lemma parse_options_selects w argv name path t :
  selects w argv name path ->
  (forall given, strcasecmp given name = 0 -> task_of given = Some t) ->
  parse_options w argv (initial_globals w) =
  if access w path =? 0 then
    ((EvAccess path :: fst (parse_options_sanity (parsed w argv t path)))%list,
     snd (parse_options_sanity (parsed w argv t path)))
  else ([EvAccess path],
        Halt (FatalError (Report "Could not access '%s'" [ArgStr path]))).
Proof.
  intros (given & Hops & Hgo & Hname) Ht.
  rewrite (parse_options_operands w argv given path Hops Hgo), (Ht _ Hname).
  reflexivity.
Qed.

Lemma init_event_not_proto e : init_event e = true -> is_proto_event e = false.
Proof. destruct e; simpl; congruence. Qed.

Lemma init_calls_spec g : forallb init_event (init_calls g) = true.
Proof.
  unfold init_calls. destruct (1 <? verbose g), (lookup_table g); reflexivity.
Qed.

Lemma exit_calls_not_proto g : existsb is_proto_event (exit_calls g) = false.
Proof. unfold exit_calls. destruct (lookup_table g); reflexivity. Qed.

Lemma kernel_calls_not_proto w g : existsb is_proto_event (kernel_calls w g) = false.
Proof. unfold kernel_calls. destruct (malloc w (kernel_size w g)); reflexivity. Qed.

Lemma existsb_app_false {A} (p : A -> bool) l1 l2 :
  existsb p l1 = false -> existsb p l2 = false -> existsb p (l1 ++ l2) = false.
Proof. intros H1 H2. rewrite existsb_app, H1, H2. reflexivity. Qed.

Lemma parse_options_sanity_split g :
  parse_options_sanity g =
  match sanity_failure g with
  | Some rep => ([], Halt (FatalError rep))
  | None => (sanity_warning g, Done tt g)
  end.
Proof.
  rewrite parse_options_sanity_eq. unfold sanity_failure, sanity_warning.
  destruct (task g); [| |reflexivity].
  - destruct (is_null (result_file g)); reflexivity.
  - destruct (is_null (proto_file g) && is_null (result_file g))%bool;
      reflexivity.
Qed.

Lemma parse_options_few_operands w argv :
  existsb stops (fst (scan w argv)) = false ->
  List.length (snd (scan w argv)) <> 2%nat ->
  parse_options w argv (initial_globals w) =
    ([], Halt (FatalError
       (Report "<task> and <input> arguments are required" []))).
Proof.
  intros Hgo Hlen. unfold parse_options, parse_options_on.
  rewrite (bind_silent _ _ _ _ _ (parse_options_loop_go _ _ Hgo)).
  destruct (snd (scan w argv)) as [|name [|path [|x l]]]; try reflexivity.
  contradiction Hlen. reflexivity.
Qed.

Lemma last_arg_absent p rs d :
  existsb (fun r => p (ch r)) rs = false -> last_arg p rs d = d.
Proof.
  unfold last_arg. revert d. induction rs as [|r rs IH]; intros d H;
    [reflexivity|].
  cbn [existsb] in H. apply orb_false_elim in H as [Hr H].
  cbn [fold_left]. rewrite Hr. apply IH, H.
Qed.

Lemma parsed_result_file_eq w argv t path :
  result_file (parsed w argv t path) = last_arg is_r (fst (scan w argv)) None.
Proof.
  unfold parsed. cbn [result_file set_input_file set_task].
  rewrite result_file_after. reflexivity.
Qed.

Lemma parsed_proto_file_eq w argv t path :
  proto_file (parsed w argv t path) = last_arg is_ls (fst (scan w argv)) None.
Proof.
  unfold parsed. cbn [proto_file set_input_file set_task].
  rewrite proto_file_after. reflexivity.
Qed.

Lemma not_null p : is_null p = false -> p <> None.
Proof. destruct p; [discriminate | intros H; discriminate H]. Qed.

(** ** Output requirements of the tasks *)

(** Checks getopt's guarantee on the results of a concrete command
    line. *)
Ltac sound_by_evaluation :=
  unfold getopt_sound; vm_compute; repeat constructor;
  let H := fresh in intros H; first [discriminate H | discriminate].

(** C3, counterexample.  [malheur -r out prototype in] selects the
    prototype task and gives a result destination, yet when the input
    cannot be read option parsing fails fatally, on
    "Could not access '%s'". *)
Lemma prototype_unreadable_input_fails :
  selects unreadable ["malheur"; "-r"; "out"; "prototype"; "in"]
          "prototype" "in" /\
  given unreadable "r" ["malheur"; "-r"; "out"; "prototype"; "in"] = true /\
  parse_options unreadable ["malheur"; "-r"; "out"; "prototype"; "in"]
                (initial_globals unreadable) =
    ([EvAccess "in"],
     Halt (FatalError (Report "Could not access '%s'" [ArgStr "in"]))).
Proof.
  split; [|split; reflexivity].
  exists "prototype". repeat split.
Qed.

(** C3, as amended.  For every command line that selects the prototype
    task, whatever the C library takes for its options.  When the input
    is readable, option parsing fails fatally if and only if none of -r,
    -s and -l is given, and the failure is then
    "No output specified. See options '-s' and/or '-r'"; when at least
    one of them is given parse_options returns, with the options stored
    in the globals.  When the input is not readable, option parsing
    fails fatally on "Could not access '%s'" right after the call of
    access, whatever destinations are given. *)
Theorem prototype_output_requirement (w : world) (argv : list string)
  (path : string) :
  selects w argv "prototype" path ->
  getopt_sound w argv ->
  (access w path = 0 ->
   (is_fatal (result (parse_options w argv (initial_globals w))) <->
      given w "r" argv = false /\ given w "l" argv = false /\
      given w "s" argv = false) /\
   (given w "r" argv = false /\ given w "l" argv = false /\
    given w "s" argv = false ->
      parse_options w argv (initial_globals w) =
        ([EvAccess path],
         Halt (FatalError
           (Report "No output specified. See options '-s' and/or '-r'" [])))) /\
   (given w "r" argv = true \/ given w "l" argv = true \/
    given w "s" argv = true ->
      parse_options w argv (initial_globals w) =
        ([EvAccess path], Done tt (parsed w argv PROTOTYPE path)))) /\
  (access w path <> 0 ->
   parse_options w argv (initial_globals w) =
     ([EvAccess path],
      Halt (FatalError (Report "Could not access '%s'" [ArgStr path])))).
Proof.
  intros Hsel Hwf.
  rewrite (parse_options_selects w argv "prototype" path PROTOTYPE Hsel
             task_of_prototype).
  split.
  - intros Hacc.
    rewrite Hacc, parse_options_sanity_eq, parsed_task,
      (parsed_proto_file w argv _ _ Hwf), (parsed_result_file w argv _ _ Hwf).
    cbn [Z.eqb fst snd result].
    destruct (given w "r" argv), (given w "l" argv), (given w "s" argv); cbn;
      (split; [split; [intros (rep & H) | intros (H1 & H2 & H3)]
              |split; [intros (H1 & H2 & H3) | intros [H|[H|H]]]]);
      try discriminate; try reflexivity; try (repeat split; reflexivity).
    eexists; reflexivity.
  - intros Hacc. apply Z.eqb_neq in Hacc. rewrite Hacc. reflexivity.
Qed.

(** An instance, with the GNU library and the option after the
    operands: [malheur Prototype in -s protos]. *)
Lemma prototype_output_requirement_witness :
  selects friendly_glibc ["malheur"; "Prototype"; "in"; "-s"; "protos"]
          "prototype" "in" /\
  getopt_sound friendly_glibc ["malheur"; "Prototype"; "in"; "-s"; "protos"] /\
  access friendly_glibc "in" = 0 /\
  parse_options friendly_glibc ["malheur"; "Prototype"; "in"; "-s"; "protos"]
                (initial_globals friendly_glibc) =
    ([EvAccess "in"],
     Done tt (Globals 0 (Some "malheur.cfg") None (Some "in") (Some "protos")
                      PROTOTYPE false)).
Proof.
  assert (selects friendly_glibc ["malheur"; "Prototype"; "in"; "-s"; "protos"]
                  "prototype" "in")
    as Hsel by (exists "Prototype"; split; [|split]; reflexivity).
  assert (getopt_sound friendly_glibc
            ["malheur"; "Prototype"; "in"; "-s"; "protos"])
    as Hwf by sound_by_evaluation.
  split; [exact Hsel|]. split; [exact Hwf|]. split; [reflexivity|].
  destruct (prototype_output_requirement friendly_glibc
              ["malheur"; "Prototype"; "in"; "-s"; "protos"] "in" Hsel Hwf)
    as [Hreadable _].
  destruct (Hreadable eq_refl) as (_ & _ & Hgiven).
  apply Hgiven. right. right. reflexivity.
Defined.

(** C4, counterexample.  [malheur -r out kernel in] selects the kernel
    task and gives a result destination, yet when the input cannot be
    read option parsing fails fatally, and the run ends there without
    computing or exporting a kernel matrix. *)
Lemma kernel_unreadable_input_fails :
  selects unreadable ["malheur"; "-r"; "out"; "kernel"; "in"] "kernel" "in" /\
  given unreadable "r" ["malheur"; "-r"; "out"; "kernel"; "in"] = true /\
  parse_options unreadable ["malheur"; "-r"; "out"; "kernel"; "in"]
                (initial_globals unreadable) =
    ([EvAccess "in"],
     Halt (FatalError (Report "Could not access '%s'" [ArgStr "in"]))) /\
  run unreadable ["malheur"; "-r"; "out"; "kernel"; "in"] =
    ([EvAccess "in"],
     Halt (FatalError (Report "Could not access '%s'" [ArgStr "in"]))).
Proof.
  split; [|repeat split; reflexivity].
  exists "kernel". repeat split.
Qed.

(** C4, as amended.  For every command line that selects the kernel
    task, whatever the C library takes for its options.  When the input
    is readable: option parsing fails fatally if and only if -r is not
    given, on "No output specified. See option '-r'"; with -r,
    parse_options returns, and warns that prototypes will not be
    extracted exactly when -l or -s is given; and when moreover the
    configuration is read and the matrix is allocated, the run is, in
    this order: access, the warning if any, the calls of start-up,
    farray_extract, malloc, farray_dot, export_kernel to the file of -r,
    free, farray_destroy, the calls of shutdown, and it returns
    EXIT_SUCCESS.  When the input is not readable, option parsing and the
    run fail on "Could not access '%s'" right after the call of access,
    even with -r.  In no case does the run call a prototype function. *)
Theorem kernel_output_requirement (w : world) (argv : list string)
  (path : string) :
  selects w argv "kernel" path ->
  getopt_sound w argv ->
  (access w path = 0 ->
   (is_fatal (result (parse_options w argv (initial_globals w))) <->
      given w "r" argv = false) /\
   (given w "r" argv = false ->
      parse_options w argv (initial_globals w) =
        ([EvAccess path],
         Halt (FatalError (Report "No output specified. See option '-r'" [])))) /\
   (given w "r" argv = true ->
      parse_options w argv (initial_globals w) =
        (EvAccess path ::
           (if (given w "l" argv || given w "s" argv)%bool
            then [EvWarning "Prototypes will not be extracted in this task"]
            else []),
         Done tt (parsed w argv KERNEL path))) /\
   (given w "r" argv = true ->
    config_ok w (parsed w argv KERNEL path) = true ->
    malloc w (kernel_size w (parsed w argv KERNEL path)) = true ->
      is_null (result_file (parsed w argv KERNEL path)) = false /\
      run w argv =
        ((EvAccess path ::
            (if (given w "l" argv || given w "s" argv)%bool
             then [EvWarning "Prototypes will not be extracted in this task"]
             else [])
          ++ init_calls (parsed w argv KERNEL path)
          ++ [EvFarrayExtract (Some path);
              EvMalloc (kernel_size w (parsed w argv KERNEL path));
              EvFarrayDot;
              EvExportKernel (result_file (parsed w argv KERNEL path));
              EvFree;
              EvFarrayDestroy]
          ++ exit_calls (parsed w argv KERNEL path))%list,
         Done EXIT_SUCCESS (parsed w argv KERNEL path)))) /\
  (access w path <> 0 ->
   parse_options w argv (initial_globals w) =
     ([EvAccess path],
      Halt (FatalError (Report "Could not access '%s'" [ArgStr path]))) /\
   run w argv =
     ([EvAccess path],
      Halt (FatalError (Report "Could not access '%s'" [ArgStr path])))) /\
  existsb is_proto_event (trace (run w argv)) = false.
Proof.
  intros Hsel Hwf.
  pose proof (parse_options_selects w argv "kernel" path KERNEL Hsel
                task_of_kernel) as Hp.
  destruct (Z.eqb_spec (access w path) 0) as [Hacc|Hacc].
  2:{ pose proof (run_parse_halt w argv _ _ Hp) as Hrun.
      split; [intros C; contradiction|].
      split; [intros _; split; assumption|].
      rewrite Hrun. reflexivity. }
  rewrite parse_options_sanity_eq, parsed_task,
    (parsed_proto_file w argv _ _ Hwf), (parsed_result_file w argv _ _ Hwf)
    in Hp.
  split; [intros _ | split; [intros C; contradiction|]];
    destruct (given w "r" argv) eqn:Hr; cbn [negb] in Hp.
  - (* readable, -r given *)
    assert (parse_options w argv (initial_globals w) =
            (EvAccess path ::
               (if (given w "l" argv || given w "s" argv)%bool
                then [EvWarning "Prototypes will not be extracted in this task"]
                else []),
             Done tt (parsed w argv KERNEL path))) as Hp'
      by (rewrite Hp; destruct (given w "l" argv || given w "s" argv)%bool;
          reflexivity).
    split; [split; [intros (r & H); rewrite Hp' in H; discriminate H
                   | discriminate]|].
    split; [discriminate|]. split; [intros _; exact Hp'|].
    intros _ Hc Hm.
    split; [rewrite (parsed_result_file w argv _ _ Hwf), Hr; reflexivity|].
    rewrite (run_parse_done w argv _ _ Hp'), Hc.
    unfold task_completes, task_calls, kernel_calls.
    rewrite parsed_task, Hm. reflexivity.
  - (* readable, no -r *)
    assert (parse_options w argv (initial_globals w) =
            ([EvAccess path],
             Halt (FatalError (Report "No output specified. See option '-r'" []))))
      as Hp' by (rewrite Hp; reflexivity).
    split; [split; [reflexivity | intros _; rewrite Hp'; eexists; reflexivity]|].
    split; [intros _; exact Hp'|]. split; discriminate.
  - (* no prototype call, -r given *)
    assert (parse_options w argv (initial_globals w) =
            (EvAccess path ::
               (if (given w "l" argv || given w "s" argv)%bool
                then [EvWarning "Prototypes will not be extracted in this task"]
                else []),
             Done tt (parsed w argv KERNEL path))) as Hp'
      by (rewrite Hp; destruct (given w "l" argv || given w "s" argv)%bool;
          reflexivity).
    rewrite (run_parse_done w argv _ _ Hp').
    assert (task_calls w (parsed w argv KERNEL path) =
            kernel_calls w (parsed w argv KERNEL path)) as Ht by reflexivity.
    rewrite Ht.
    assert (existsb is_proto_event
              (EvAccess path ::
                 (if (given w "l" argv || given w "s" argv)%bool
                  then [EvWarning "Prototypes will not be extracted in this task"]
                  else [])) = false) as Hq
      by (destruct (given w "l" argv || given w "s" argv)%bool; reflexivity).
    pose proof (forallb_none _ _ _ init_event_not_proto
                  (init_calls_spec (parsed w argv KERNEL path))) as Hi.
    pose proof (kernel_calls_not_proto w (parsed w argv KERNEL path)) as Hk.
    pose proof (exit_calls_not_proto (parsed w argv KERNEL path)) as He.
    unfold trace.
    destruct (config_ok w (parsed w argv KERNEL path));
      [destruct (task_completes w (parsed w argv KERNEL path))|];
      cbn [fst];
      repeat first [assumption | reflexivity | apply existsb_app_false].
  - (* no prototype call, no -r *)
    assert (parse_options w argv (initial_globals w) =
            ([EvAccess path],
             Halt (FatalError (Report "No output specified. See option '-r'" []))))
      as Hp' by (rewrite Hp; reflexivity).
    rewrite (run_parse_halt w argv _ _ Hp'). reflexivity.
Qed.

(** An instance, with the GNU library and the options after the
    operands: [malheur kernel in -r out -s protos]. *)
Lemma kernel_output_requirement_witness :
  selects friendly_glibc ["malheur"; "kernel"; "in"; "-r"; "out"; "-s"; "protos"]
          "kernel" "in" /\
  getopt_sound friendly_glibc
    ["malheur"; "kernel"; "in"; "-r"; "out"; "-s"; "protos"] /\
  access friendly_glibc "in" = 0 /\
  run friendly_glibc ["malheur"; "kernel"; "in"; "-r"; "out"; "-s"; "protos"] =
    ([EvAccess "in"; EvWarning "Prototypes will not be extracted in this task";
      EvConfigInit; EvConfigReadFile (Some "malheur.cfg"); EvConfigCheck;
      EvFarrayExtract (Some "in"); EvMalloc 72; EvFarrayDot;
      EvExportKernel (Some "out"); EvFree; EvFarrayDestroy; EvConfigDestroy],
     Done EXIT_SUCCESS
          (Globals 0 (Some "malheur.cfg") (Some "out") (Some "in")
                   (Some "protos") KERNEL false)).
Proof.
  assert (selects friendly_glibc
            ["malheur"; "kernel"; "in"; "-r"; "out"; "-s"; "protos"]
            "kernel" "in")
    as Hsel by (exists "kernel"; split; [|split]; reflexivity).
  assert (getopt_sound friendly_glibc
            ["malheur"; "kernel"; "in"; "-r"; "out"; "-s"; "protos"])
    as Hwf by sound_by_evaluation.
  split; [exact Hsel|]. split; [exact Hwf|]. split; [reflexivity|].
  destruct (kernel_output_requirement friendly_glibc
              ["malheur"; "kernel"; "in"; "-r"; "out"; "-s"; "protos"] "in"
              Hsel Hwf) as (Hreadable & _ & _).
  destruct (Hreadable eq_refl) as (_ & _ & _ & Hrun).
  destruct (Hrun eq_refl eq_refl eq_refl) as [_ Hrun'].
  exact Hrun'.
Defined.

(** C8.  For every command line that selects the cluster task, whatever
    options it gives and whatever the C library takes for them: the
    sanity checks of parse_options make no call and return (as they do
    from any globals whose task is CLUSTER), and parse_options as a whole
    returns as soon as the input is readable; its only failure is
    "Could not access '%s'" on the input.  No output destination is
    required. *)
Theorem cluster_no_output_requirement (w : world) (argv : list string)
  (path : string) :
  selects w argv "cluster" path ->
  (forall g, task g = CLUSTER -> parse_options_sanity g = ([], Done tt g)) /\
  parse_options_sanity (parsed w argv CLUSTER path) =
    ([], Done tt (parsed w argv CLUSTER path)) /\
  parse_options w argv (initial_globals w) =
    ([EvAccess path],
     if access w path =? 0 then Done tt (parsed w argv CLUSTER path)
     else Halt (FatalError (Report "Could not access '%s'" [ArgStr path]))).
Proof.
  intros Hsel. split; [|split].
  - intros g Hg. rewrite parse_options_sanity_eq, Hg. reflexivity.
  - reflexivity.
  - rewrite (parse_options_selects w argv "cluster" path CLUSTER Hsel
               task_of_cluster).
    destruct (access w path =? 0); reflexivity.
Qed.

(** An instance, with the GNU library and options after the operands:
    [malheur CLUSTER in -r out -l protos]. *)
Lemma cluster_no_output_requirement_witness :
  selects friendly_glibc ["malheur"; "CLUSTER"; "in"; "-r"; "out"; "-l"; "protos"]
          "cluster" "in" /\
  parse_options friendly_glibc
    ["malheur"; "CLUSTER"; "in"; "-r"; "out"; "-l"; "protos"]
    (initial_globals friendly_glibc) =
    ([EvAccess "in"],
     Done tt (Globals 0 (Some "malheur.cfg") (Some "out") (Some "in")
                      (Some "protos") CLUSTER false)).
Proof.
  assert (selects friendly_glibc
            ["malheur"; "CLUSTER"; "in"; "-r"; "out"; "-l"; "protos"]
            "cluster" "in") as Hsel
    by (exists "CLUSTER"; split; [|split]; reflexivity).
  split; [exact Hsel|].
  apply (cluster_no_output_requirement friendly_glibc
           ["malheur"; "CLUSTER"; "in"; "-r"; "out"; "-l"; "protos"] "in" Hsel).
Defined.

(** ** The options -l and -s *)

Lemma parse_options_switch_l_as_s r :
  parse_options_switch (l_as_s r) = parse_options_switch r.
Proof.
  unfold l_as_s. destruct (Ascii.eqb_spec (ch r) "l") as [E|_]; [|reflexivity].
  destruct r as [c oa]. simpl in E. subst c. reflexivity.
Qed.

Lemma parse_options_loop_l_as_s rs g :
  parse_options_loop (map l_as_s rs) g = parse_options_loop rs g.
Proof.
  revert g. induction rs as [|r rs IH]; intros g; [reflexivity|].
  cbn [map parse_options_loop]. unfold bind.
  rewrite parse_options_switch_l_as_s.
  destruct (parse_options_switch r g) as [tr [a g'|h]]; [|reflexivity].
  rewrite IH. reflexivity.
Qed.

Lemma last_arg_last p rs1 r rs2 d :
  p (ch r) = true ->
  existsb (fun x => p (ch x)) rs2 = false ->
  last_arg p (rs1 ++ r :: rs2) d = optarg r.
Proof.
  intros Hr H2. unfold last_arg. rewrite fold_left_app. cbn [fold_left].
  rewrite Hr. clear Hr.
  generalize (optarg r) as acc. induction rs2 as [|x rs2 IH]; intros acc;
    [reflexivity|].
  cbn [existsb] in H2. apply orb_false_elim in H2 as [Hx H2].
  cbn [fold_left]. rewrite Hx. apply IH, H2.
Qed.

(** C9.  In the switch of parse_options, -l and -s run the same
    statement, [proto_file = optarg]; after the option loop proto_file
    holds the argument of the last -l or -s, whichever of the two it is;
    rewriting every -l as -s changes nothing in what parse_options does;
    and malheur_prototype uses proto_file in one call only,
    proto_save_file, made exactly when proto_file is set: the calls of
    the prototype task are farray_extract, proto_extract, proto_print
    (when verbose), export_proto (with -r), proto_save_file (with -l or
    -s), proto_destroy and farray_destroy, none of which loads
    prototypes. *)
Theorem l_and_s_share_proto_file :
  (forall oa, parse_options_switch (GetoptRet "l" oa) =
              parse_options_switch (GetoptRet "s" oa)) /\
  (forall oa g, parse_options_switch (GetoptRet "l" oa) g =
                ([], Done tt (set_proto_file oa g))) /\
  (forall rs1 r rs2 g,
     existsb stops (rs1 ++ r :: rs2) = false ->
     is_ls (ch r) = true ->
     existsb (fun x => is_ls (ch x)) rs2 = false ->
     exists g', parse_options_loop (rs1 ++ r :: rs2) g = ([], Done tt g') /\
                proto_file g' = optarg r) /\
  (forall w rs operands g,
     parse_options_on w (map l_as_s rs) operands g =
     parse_options_on w rs operands g) /\
  (forall g,
     malheur_prototype g =
       (([EvFarrayExtract (input_file g); EvProtoExtract]
         ++ (if 1 <? verbose g then [EvProtoPrint] else [])
         ++ (if is_null (result_file g) then []
             else [EvExportProto (result_file g)])
         ++ (if is_null (proto_file g) then []
             else [EvProtoSaveFile (proto_file g)])
         ++ [EvProtoDestroy; EvFarrayDestroy])%list,
        Done tt g)) /\
  run friendly ["malheur"; "-l"; "protos"; "prototype"; "in"] =
  run friendly ["malheur"; "-s"; "protos"; "prototype"; "in"].
Proof.
  split; [reflexivity|]. split; [reflexivity|]. split; [|split; [|split]].
  - intros rs1 r rs2 g Hgo Hr H2.
    exists (fold_left option_effect (rs1 ++ r :: rs2) g). split.
    + apply parse_options_loop_go, Hgo.
    + rewrite proto_file_after. apply last_arg_last; assumption.
  - intros w rs operands g. unfold parse_options_on, bind.
    rewrite parse_options_loop_l_as_s. reflexivity.
  - apply malheur_prototype_eq.
  - vm_compute. reflexivity.
Qed.

(** ** Options that end the program *)

Lemma parse_options_loop_find rs r g :
  find stops rs = Some r ->
  parse_options_loop rs g =
    ([if Ascii.eqb (ch r) "V" then EvPrintVersion else EvPrintUsage],
     Halt (Exited EXIT_SUCCESS)).
Proof.
  revert g. induction rs as [|x rs IH]; intros g H; [discriminate|].
  cbn [find] in H. cbn [parse_options_loop].
  destruct (stops x) eqn:Hx.
  - injection H as <-.
    apply bind_halt, parse_options_switch_stop, Hx.
  - rewrite (bind_silent _ _ _ _ _ (parse_options_switch_go x g Hx)).
    apply IH, H.
Qed.

(** C10.  For every command line on which getopt reports -V, -h or an
    option it does not recognise ('?'), wherever the C library in use
    lets options stand: the program makes one call, to print_version
    when the first such option is -V and to print_usage otherwise, and
    leaves through exit(EXIT_SUCCESS), status 0: nothing of the input is
    touched (no access, no farray_extract), no task is started, and an
    unrecognised option ends the program with the status of success. *)
Theorem stop_option_exits_with_success (w : world) (argv : list string)
  (r : getopt_ret) :
  find stops (fst (scan w argv)) = Some r ->
  run w argv =
    ([if Ascii.eqb (ch r) "V" then EvPrintVersion else EvPrintUsage],
     Halt (Exited EXIT_SUCCESS)) /\
  EXIT_SUCCESS = 0 /\
  existsb computes (trace (run w argv)) = false /\
  (forall path, ~ In (EvAccess path) (trace (run w argv))).
Proof.
  intros H.
  assert (run w argv =
          ([if Ascii.eqb (ch r) "V" then EvPrintVersion else EvPrintUsage],
           Halt (Exited EXIT_SUCCESS))) as Hrun.
  { apply run_parse_halt. unfold parse_options, parse_options_on.
    apply bind_halt, parse_options_loop_find, H. }
  rewrite Hrun. unfold trace. cbn [fst].
  split; [reflexivity|]. split; [reflexivity|].
  destruct (Ascii.eqb (ch r) "V"); (split; [reflexivity|]);
    intros path [E|[]]; discriminate E.
Qed.

(** An instance, with the GNU library: -h after the operands, in
    [malheur cluster in -h]. *)
Lemma stop_option_exits_with_success_witness :
  find stops (fst (scan friendly_glibc ["malheur"; "cluster"; "in"; "-h"])) =
    Some (GetoptRet "h" None) /\
  run friendly_glibc ["malheur"; "cluster"; "in"; "-h"] =
    ([EvPrintUsage], Halt (Exited 0)).
Proof.
  split; [reflexivity|].
  apply (stop_option_exits_with_success friendly_glibc
           ["malheur"; "cluster"; "in"; "-h"]
           (GetoptRet "h" None) eq_refl).
Defined.

(** ** Start-up comes before any task *)

Lemma task_calls_computes w g : forallb computes (task_calls w g) = true.
Proof.
  unfold task_calls, kernel_calls, prototype_calls, cluster_calls.
  destruct (task g).
  - destruct (malloc w (kernel_size w g)); reflexivity.
  - destruct (1 <? verbose g), (is_null (result_file g)),
      (is_null (proto_file g)); reflexivity.
  - reflexivity.
Qed.

Lemma malheur_init_done_inv w argv g :
  result (malheur_init w argv (initial_globals w)) = Done tt g ->
  exists tr,
    parse_options w argv (initial_globals w) = (tr, Done tt g) /\
    config_ok w g = true /\
    trace (malheur_init w argv (initial_globals w)) = (tr ++ init_calls g)%list.
Proof.
  intros H.
  destruct (parse_options w argv (initial_globals w)) as [tr [[] g'|h]] eqn:Hp.
  - rewrite (malheur_init_parse_done w argv tr g' Hp) in *.
    destruct (config_ok w g') eqn:Hc; unfold result, trace in *;
      cbn [fst snd] in *; [|discriminate H].
    injection H as <-. exists tr. rewrite Hc. repeat split; reflexivity.
  - rewrite (malheur_init_parse_halt w argv tr h Hp) in H. discriminate H.
Qed.

(** When parse_options returns, every check it holds has passed. *)
Lemma parse_options_done_checked w argv tr g :
  parse_options w argv (initial_globals w) = (tr, Done tt g) ->
  exists name path,
    snd (scan w argv) = [name; path] /\
    existsb stops (fst (scan w argv)) = false /\
    task_of name = Some (task g) /\
    input_file g = Some path /\
    access w path = 0 /\
    (task g = KERNEL -> result_file g <> None) /\
    (task g = PROTOTYPE -> result_file g <> None \/ proto_file g <> None).
Proof.
  intros Hp.
  destruct (parse_options_done_inv w argv tr g Hp)
    as (name & path & t & Hops & Hgo & Ht & Ha & Hg).
  rewrite (parse_options_operands w argv name path Hops Hgo), Ht, Ha,
    parse_options_sanity_split in Hp.
  cbn [Z.eqb] in Hp.
  destruct (sanity_failure (parsed w argv t path)) eqn:Hsan;
    [discriminate Hp|].
  exists name, path. subst g. rewrite parsed_task.
  repeat split; try assumption.
  - intros Hk. subst t.
    destruct (is_null (result_file (parsed w argv KERNEL path))) eqn:Er;
      [|apply not_null; exact Er].
    exfalso. unfold sanity_failure in Hsan. rewrite parsed_task, Er in Hsan.
    discriminate Hsan.
  - intros Hk. subst t.
    destruct (is_null (result_file (parsed w argv PROTOTYPE path))) eqn:Er;
      [|left; apply not_null; exact Er].
    destruct (is_null (proto_file (parsed w argv PROTOTYPE path))) eqn:Es;
      [|right; apply not_null; exact Es].
    exfalso. unfold sanity_failure in Hsan.
    rewrite parsed_task, Er, Es in Hsan. discriminate Hsan.
Qed.

(** Without -r the result file is NULL when the sanity checks run, and
    without -l and -s the prototype file is. *)
Lemma parsed_result_file_absent w argv t path :
  given w "r" argv = false -> is_null (result_file (parsed w argv t path)) = true.
Proof.
  intros H. rewrite parsed_result_file_eq, last_arg_absent; [reflexivity|].
  exact H.
Qed.

Lemma parsed_proto_file_absent w argv t path :
  given w "l" argv = false -> given w "s" argv = false ->
  is_null (proto_file (parsed w argv t path)) = true.
Proof.
  intros Hl Hs. rewrite parsed_proto_file_eq, last_arg_absent; [reflexivity|].
  rewrite is_ls_options. unfold given in Hl, Hs. rewrite Hl, Hs. reflexivity.
Qed.

(** C6.  In every run: malheur_init, which holds every configuration
    check, makes no call that loads, computes on or writes the
    collection; when malheur_init stops, on a fatal error or an exit,
    the run is over with the calls of malheur_init alone, so no task
    function is entered; when it returns, whatever the task does comes
    after all of its calls, and every check has passed: the operands are
    a known task and an input that access() accepted, the kernel task
    has a result file, the prototype task a result file or a prototype
    file, and the configuration was read; a run that ends in a fatal
    error other than the failed allocation of the kernel matrix has
    made no call on the collection.  Each configuration error is such a
    fatal error of start-up: missing operands, an unknown task, an
    unreadable input, a kernel task without -r, a prototype task
    without -r, -l and -s, an unreadable configuration. *)
Theorem configuration_errors_precede_tasks (w : world) (argv : list string) :
  existsb computes (trace (malheur_init w argv (initial_globals w))) = false /\
  (forall h,
     result (malheur_init w argv (initial_globals w)) = Halt h ->
     run w argv = (trace (malheur_init w argv (initial_globals w)), Halt h)) /\
  (forall g,
     result (malheur_init w argv (initial_globals w)) = Done tt g ->
     exists tl,
       trace (run w argv) =
         (trace (malheur_init w argv (initial_globals w)) ++ tl)%list /\
       forallb computes (firstn (List.length (task_calls w g)) tl) = true) /\
  (forall g,
     result (malheur_init w argv (initial_globals w)) = Done tt g ->
     exists name path,
       snd (scan w argv) = [name; path] /\
       existsb stops (fst (scan w argv)) = false /\
       task_of name = Some (task g) /\
       input_file g = Some path /\
       access w path = 0 /\
       (task g = KERNEL -> result_file g <> None) /\
       (task g = PROTOTYPE -> result_file g <> None \/ proto_file g <> None) /\
       config_read_file w (config_file g) = CONFIG_TRUE) /\
  (forall rep,
     result (run w argv) = Halt (FatalError rep) ->
     rep <> alloc_report ->
     existsb computes (trace (run w argv)) = false) /\
  (existsb stops (fst (scan w argv)) = false ->
   List.length (snd (scan w argv)) <> 2%nat ->
   run w argv =
     ([], Halt (FatalError
        (Report "<task> and <input> arguments are required" [])))) /\
  (forall name path,
     snd (scan w argv) = [name; path] ->
     existsb stops (fst (scan w argv)) = false ->
     task_of name = None ->
     run w argv =
       ([], Halt (FatalError
          (Report "Unknown analysis task '%s' for Malheur" [ArgStr name])))) /\
  (forall name path t,
     snd (scan w argv) = [name; path] ->
     existsb stops (fst (scan w argv)) = false ->
     task_of name = Some t ->
     access w path <> 0 ->
     run w argv =
       ([EvAccess path],
        Halt (FatalError (Report "Could not access '%s'" [ArgStr path])))) /\
  (forall path,
     selects w argv "kernel" path ->
     access w path = 0 ->
     given w "r" argv = false ->
     run w argv =
       ([EvAccess path],
        Halt (FatalError (Report "No output specified. See option '-r'" [])))) /\
  (forall path,
     selects w argv "prototype" path ->
     access w path = 0 ->
     given w "r" argv = false ->
     given w "l" argv = false ->
     given w "s" argv = false ->
     run w argv =
       ([EvAccess path],
        Halt (FatalError
          (Report "No output specified. See options '-s' and/or '-r'" [])))) /\
  (forall tr g,
     parse_options w argv (initial_globals w) = (tr, Done tt g) ->
     config_read_file w (config_file g) <> CONFIG_TRUE ->
     run w argv =
       ((tr ++ [EvConfigInit; EvConfigReadFile (config_file g)])%list,
        Halt (FatalError
          (Report "Could not read configuration (%s in line %d)"
                  [ArgStr (config_error_text w);
                   ArgInt (config_error_line w)]))) /\
     existsb computes (trace (run w argv)) = false).
Proof.
  assert (existsb computes (trace (malheur_init w argv (initial_globals w)))
          = false) as Hquiet.
  { apply (forallb_none _ _ _ init_event_computes), emits_malheur_init. }
  split; [exact Hquiet|].
  split; [|split; [|split; [|split; [|split; [|split; [|split; [|split;
    [|split]]]]]]]].
  - intros h H. apply run_init_halt. rewrite <- H. apply pair_eta.
  - intros g H.
    assert (malheur_init w argv (initial_globals w) =
            (trace (malheur_init w argv (initial_globals w)), Done tt g)) as Hi
      by (rewrite <- H; apply pair_eta).
    rewrite (run_init_done w argv _ _ Hi), after_init_eq.
    destruct (task_completes w g); unfold trace at 1; cbn [fst];
      eexists; (split; [reflexivity|]).
    + rewrite firstn_app, Nat.sub_diag, firstn_all, firstn_O, app_nil_r.
      apply task_calls_computes.
    + rewrite firstn_all. apply task_calls_computes.
  - intros g H.
    destruct (malheur_init_done_inv w argv g H) as (tr & Hp & Hc & _).
    destruct (parse_options_done_checked w argv tr g Hp)
      as (name & path & Hops & Hgo & Ht & Hin & Ha & Hk & Hpr).
    exists name, path. repeat split; try assumption.
    apply Z.eqb_eq. exact Hc.
  - intros rep H Hrep.
    destruct (malheur_init w argv (initial_globals w)) as [tr [[] g|h]] eqn:Hi.
    + rewrite (run_init_done w argv _ _ Hi), after_init_eq in H.
      destruct (task_completes w g); unfold result in H; cbn [snd] in H;
        [discriminate|].
      injection H as <-. contradiction.
    + rewrite (run_init_halt w argv _ _ Hi). exact Hquiet.
  - intros Hgo Hlen. apply run_parse_halt, parse_options_few_operands;
      assumption.
  - intros name path Hops Hgo Hname. apply run_parse_halt.
    rewrite (parse_options_operands w argv name path Hops Hgo), Hname.
    reflexivity.
  - intros name path t Hops Hgo Ht Ha. apply run_parse_halt.
    rewrite (parse_options_operands w argv name path Hops Hgo), Ht.
    apply Z.eqb_neq in Ha. rewrite Ha. reflexivity.
  - intros path Hsel Ha Hr. apply run_parse_halt.
    rewrite (parse_options_selects w argv "kernel" path KERNEL Hsel
               task_of_kernel), Ha, parse_options_sanity_eq, parsed_task,
      (parsed_result_file_absent w argv KERNEL path Hr).
    reflexivity.
  - intros path Hsel Ha Hr Hl Hs. apply run_parse_halt.
    rewrite (parse_options_selects w argv "prototype" path PROTOTYPE Hsel
               task_of_prototype), Ha, parse_options_sanity_eq, parsed_task,
      (parsed_result_file_absent w argv PROTOTYPE path Hr),
      (parsed_proto_file_absent w argv PROTOTYPE path Hl Hs).
    reflexivity.
  - intros tr g Hp Hc.
    pose proof (run_parse_done w argv tr g Hp) as Hrun.
    unfold config_ok in Hrun. apply Z.eqb_neq in Hc. rewrite Hc in Hrun.
    split; [exact Hrun|].
    pose proof (malheur_init_parse_done w argv tr g Hp) as Hi.
    unfold config_ok in Hi. rewrite Hc in Hi. rewrite Hi in Hquiet.
    rewrite Hrun. exact Hquiet.
Qed.

(** ** The feature lookup table *)

Lemma count_init_init_calls g :
  count is_ftable_init (init_calls g) = if lookup_table g then 1%nat else 0%nat.
Proof.
  unfold init_calls. destruct (1 <? verbose g), (lookup_table g); reflexivity.
Qed.

Lemma count_destroy_init_calls g :
  count is_ftable_destroy (init_calls g) = 0%nat.
Proof.
  unfold init_calls. destruct (1 <? verbose g), (lookup_table g); reflexivity.
Qed.

Lemma count_init_exit_calls g : count is_ftable_init (exit_calls g) = 0%nat.
Proof. unfold exit_calls. destruct (lookup_table g); reflexivity. Qed.

Lemma count_destroy_exit_calls g :
  count is_ftable_destroy (exit_calls g) = if lookup_table g then 1%nat else 0%nat.
Proof. unfold exit_calls. destruct (lookup_table g); reflexivity. Qed.

Lemma computes_not_init e : computes e = true -> is_ftable_init e = false.
Proof. destruct e; simpl; congruence. Qed.

Lemma computes_not_destroy e : computes e = true -> is_ftable_destroy e = false.
Proof. destruct e; simpl; congruence. Qed.

Lemma parse_event_not_ftable_init e :
  parse_event e = true -> is_ftable_init e = false.
Proof. destruct e; simpl; congruence. Qed.

Lemma parse_event_not_ftable_destroy e :
  parse_event e = true -> is_ftable_destroy e = false.
Proof. destruct e; simpl; congruence. Qed.

Lemma parse_event_computes e : parse_event e = true -> computes e = false.
Proof. destruct e; simpl; congruence. Qed.

Ltac halt_is_not_done :=
  match goal with
  | H : exists _ _, Halt _ = Done _ _ |- _ =>
      let E := fresh in destruct H as (? & ? & E); discriminate E
  end.

(** C7, counterexample.  [malheur -t -h] gives the flag -t, and the run
    ends at -h before ftable_init: the table is never initialised.  And
    in [malheur -t -r out kernel in], when the kernel matrix cannot be
    allocated, the table is initialised and the fatal error ends the run
    before malheur_exit: it is never destroyed. *)
Lemma lookup_table_flag_without_lifecycle :
  given friendly "t" ["malheur"; "-t"; "-h"] = true /\
  run friendly ["malheur"; "-t"; "-h"] =
    ([EvPrintUsage], Halt (Exited EXIT_SUCCESS)) /\
  count is_ftable_init (trace (run friendly ["malheur"; "-t"; "-h"])) = 0%nat /\
  given out_of_memory "t" ["malheur"; "-t"; "-r"; "out"; "kernel"; "in"] = true /\
  run out_of_memory ["malheur"; "-t"; "-r"; "out"; "kernel"; "in"] =
    ([EvAccess "in"; EvConfigInit; EvConfigReadFile (Some "malheur.cfg");
      EvConfigCheck; EvFtableInit; EvFarrayExtract (Some "in"); EvMalloc 72],
     Halt (FatalError (Report "Could not allocate similarity matrix" []))) /\
  count is_ftable_destroy
    (trace (run out_of_memory ["malheur"; "-t"; "-r"; "out"; "kernel"; "in"]))
    = 0%nat.
Proof. repeat split; vm_compute; reflexivity. Qed.

(** C7, as amended.  In every run the lookup table is initialised at most
    once and destroyed at most once, and never destroyed more often than
    initialised; without -t, no run initialises or destroys it.  When
    start-up completes (malheur_init returns), the table has been
    initialised exactly once if -t was given and not at all otherwise,
    and at start-up: ftable_init is then the last call of malheur_init,
    after the configuration checks and before any call of the task.
    When the run reaches its end (main returns), the table has been
    destroyed exactly once if -t was given and not at all otherwise, and
    at shutdown: ftable_destroy comes after every call of the task and
    is followed by config_destroy only. *)
Theorem lookup_table_lifecycle (w : world) (argv : list string) :
  (count is_ftable_init (trace (run w argv)) <= 1)%nat /\
  (count is_ftable_destroy (trace (run w argv)) <=
     count is_ftable_init (trace (run w argv)))%nat /\
  (is_done (result (malheur_init w argv (initial_globals w))) ->
     count is_ftable_init (trace (malheur_init w argv (initial_globals w))) =
       (if given w "t" argv then 1%nat else 0%nat) /\
     count is_ftable_init (trace (run w argv)) =
       (if given w "t" argv then 1%nat else 0%nat)) /\
  (is_done (result (run w argv)) ->
     count is_ftable_destroy (trace (run w argv)) =
       (if given w "t" argv then 1%nat else 0%nat)) /\
  (given w "t" argv = false ->
     count is_ftable_init (trace (run w argv)) = 0%nat /\
     count is_ftable_destroy (trace (run w argv)) = 0%nat) /\
  (forall g,
     result (malheur_init w argv (initial_globals w)) = Done tt g ->
     lookup_table g = given w "t" argv /\
     exists before,
       trace (malheur_init w argv (initial_globals w)) =
         (before ++ (if given w "t" argv then [EvFtableInit] else []))%list /\
       In EvConfigCheck before /\
       existsb is_ftable_init before = false /\
       existsb is_ftable_destroy before = false /\
       existsb computes before = false) /\
  (forall s g,
     result (run w argv) = Done s g ->
     result (malheur_init w argv (initial_globals w)) = Done tt g /\
     trace (run w argv) =
       (trace (malheur_init w argv (initial_globals w))
        ++ task_calls w g
        ++ (if given w "t" argv then [EvFtableDestroy] else [])
        ++ [EvConfigDestroy])%list /\
     forallb computes (task_calls w g) = true).
Proof.
  destruct (parse_options w argv (initial_globals w)) as [tr [[] g|h]] eqn:Hp.
  - (* parse_options returns *)
    pose proof (emits_parse_options w argv (initial_globals w)) as Htr.
    rewrite Hp in Htr. cbn [fst] in Htr.
    pose proof (count_none _ _ _ parse_event_not_ftable_init Htr) as Ci.
    pose proof (count_none _ _ _ parse_event_not_ftable_destroy Htr) as Cd.
    pose proof (count_none _ _ _ computes_not_init (task_calls_computes w g)) as Ti.
    pose proof (count_none _ _ _ computes_not_destroy (task_calls_computes w g))
      as Td.
    destruct (parse_options_done_inv w argv tr g Hp)
      as (name & path & t & _ & _ & _ & _ & Hg).
    assert (lookup_table g = given w "t" argv) as Hl
      by (rewrite Hg; apply parsed_lookup_table).
    pose proof (run_parse_done w argv tr g Hp) as Hrun.
    pose proof (malheur_init_parse_done w argv tr g Hp) as Hinit.
    split; [|split; [|split; [|split; [|split; [|split]]]]].
    + rewrite Hrun.
      destruct (config_ok w g); [destruct (task_completes w g)|];
        unfold trace; cbn [fst];
        rewrite ?count_app, ?Ci, ?Ti, ?count_init_init_calls,
          ?count_init_exit_calls; destruct (lookup_table g); cbn; lia.
    + rewrite Hrun.
      destruct (config_ok w g); [destruct (task_completes w g)|];
        unfold trace; cbn [fst];
        rewrite ?count_app, ?Ci, ?Cd, ?Ti, ?Td, ?count_init_init_calls,
          ?count_destroy_init_calls, ?count_init_exit_calls,
          ?count_destroy_exit_calls; destruct (lookup_table g); cbn; lia.
    + rewrite Hrun, Hinit. intros Hd.
      destruct (config_ok w g); [|unfold is_done, result in Hd; cbn [snd] in Hd;
                                  halt_is_not_done].
      destruct (task_completes w g); unfold trace; cbn [fst];
        rewrite ?count_app, ?Ci, ?Ti, ?count_init_init_calls,
          ?count_init_exit_calls, Hl; destruct (given w "t" argv); cbn;
        split; lia.
    + rewrite Hrun. intros Hd.
      destruct (config_ok w g); [destruct (task_completes w g)|];
        unfold is_done, result in Hd; cbn [snd] in Hd; try halt_is_not_done.
      unfold trace; cbn [fst].
      rewrite ?count_app, ?Cd, ?Td, ?count_destroy_init_calls,
        ?count_destroy_exit_calls, Hl. destruct (given w "t" argv); cbn; lia.
    + rewrite Hrun. intros Ht. rewrite Ht in Hl.
      destruct (config_ok w g); [destruct (task_completes w g)|];
        unfold trace; cbn [fst];
        rewrite ?count_app, ?Ci, ?Cd, ?Ti, ?Td, ?count_init_init_calls,
          ?count_destroy_init_calls, ?count_init_exit_calls,
          ?count_destroy_exit_calls, ?Hl; cbn; split; lia.
    + intros g' H. rewrite Hinit in H |- *.
      destruct (config_ok w g); unfold result, trace in *; cbn [fst snd] in *;
        [|discriminate H].
      injection H as <-. split; [exact Hl|].
      exists (tr ++ [EvConfigInit; EvConfigReadFile (config_file g);
                     EvConfigCheck]
                 ++ (if 1 <? verbose g then [EvConfigPrint] else []))%list.
      unfold init_calls. rewrite Hl, <- !app_assoc.
      split; [reflexivity|]. split.
      * apply in_or_app. right. simpl. tauto.
      * rewrite !existsb_app,
          (forallb_none _ _ _ parse_event_not_ftable_init Htr),
          (forallb_none _ _ _ parse_event_not_ftable_destroy Htr),
          (forallb_none _ _ _ parse_event_computes Htr).
        destruct (1 <? verbose g); repeat split; reflexivity.
    + intros s g' H. rewrite Hrun in H. rewrite Hrun, Hinit.
      destruct (config_ok w g); [destruct (task_completes w g)|];
        unfold result, trace in *; cbn [fst snd] in *; try discriminate H.
      injection H as <- <-. split; [reflexivity|].
      split; [|apply task_calls_computes].
      unfold exit_calls. rewrite Hl, <- !app_assoc. reflexivity.
  - (* parse_options stops *)
    pose proof (emits_parse_options w argv (initial_globals w)) as Htr.
    rewrite Hp in Htr. cbn [fst] in Htr.
    pose proof (count_none _ _ _ parse_event_not_ftable_init Htr) as Ci.
    pose proof (count_none _ _ _ parse_event_not_ftable_destroy Htr) as Cd.
    rewrite (run_parse_halt w argv tr h Hp),
      (malheur_init_parse_halt w argv tr h Hp).
    unfold trace, result, is_done; cbn [fst snd]. rewrite Ci, Cd.
    split; [lia|]. split; [lia|].
    split; [intros H; halt_is_not_done|].
    split; [intros H; halt_is_not_done|].
    split; [intros _; split; reflexivity|].
    split; [intros g H; discriminate H | intros s g H; discriminate H].
Qed.

(** * Further properties of the driver *)

(** ** Every run, case by case *)

Lemma run_spec_holds w argv : run_spec w argv (run w argv).
Proof.
  destruct (existsb stops (fst (scan w argv))) eqn:Hgo.
  { destruct (parse_options_loop_stop _ (initial_globals w) Hgo)
      as (e & He & Hl).
    assert (parse_options w argv (initial_globals w) =
            ([e], Halt (Exited EXIT_SUCCESS))) as Hp
      by (unfold parse_options, parse_options_on; apply bind_halt, Hl).
    rewrite (run_parse_halt w argv _ _ Hp). apply RunStop; assumption. }
  destruct (Nat.eq_dec (List.length (snd (scan w argv))) 2) as [Hlen|Hlen].
  2:{ rewrite (run_parse_halt w argv _ _
                 (parse_options_few_operands w argv Hgo Hlen)).
      apply RunOperands; assumption. }
  destruct (snd (scan w argv)) as [|name [|path [|x l]]] eqn:Hops;
    try discriminate Hlen.
  pose proof (parse_options_operands w argv name path Hops Hgo) as Hp.
  destruct (task_of name) as [t|] eqn:Ht.
  2:{ rewrite (run_parse_halt w argv _ _ Hp).
      apply (RunUnknownTask w argv name path); assumption. }
  destruct (Z.eqb_spec (access w path) 0) as [Ha|Ha].
  2:{ rewrite (run_parse_halt w argv _ _ Hp).
      apply (RunNoAccess w argv name path t); assumption. }
  rewrite parse_options_sanity_split in Hp.
  destruct (sanity_failure (parsed w argv t path)) as [rep|] eqn:Hsan;
    cbn [fst snd] in Hp.
  { rewrite (run_parse_halt w argv _ _ Hp).
    apply (RunNoOutput w argv name path t); assumption. }
  rewrite (run_parse_done w argv _ _ Hp).
  destruct (config_ok w (parsed w argv t path)) eqn:Hc;
    [destruct (task_completes w (parsed w argv t path)) eqn:Hm|].
  - apply (RunDone w argv name path t); assumption.
  - apply (RunNoMemory w argv name path t); assumption.
  - apply (RunNoConfig w argv name path t); assumption.
Qed.

(** ** Operands *)

(** X1.  The error "<task> and <input> arguments are required" is the end
    of exactly the runs in which no option stops the program and the
    operands that the getopt in use leaves are not two; such a run makes
    no call at all before it, so nothing is accessed or read. *)
Theorem operands_required (w : world) (argv : list string) :
  run w argv =
    ([], Halt (FatalError
       (Report "<task> and <input> arguments are required" []))) <->
  existsb stops (fst (scan w argv)) = false /\
  List.length (snd (scan w argv)) <> 2%nat.
Proof.
  split.
  - intros H. pose proof (run_spec_holds w argv) as R. rewrite H in R.
    inversion R; subst. split; assumption.
  - intros [Hgo Hlen]. apply run_parse_halt, parse_options_few_operands;
      assumption.
Qed.

(** Two instances with the GNU library: [malheur kernel] stops on the
    error, [malheur kernel in -r out] has two operands and does not. *)
Lemma operands_required_witness :
  run friendly_glibc ["malheur"; "kernel"] =
    ([], Halt (FatalError
       (Report "<task> and <input> arguments are required" []))) /\
  List.length (snd (scan friendly_glibc ["malheur"; "kernel"; "in"; "-r"; "out"]))
    = 2%nat /\
  run friendly_glibc ["malheur"; "kernel"; "in"; "-r"; "out"] <>
    ([], Halt (FatalError
       (Report "<task> and <input> arguments are required" []))).
Proof.
  split; [|split; [reflexivity|]].
  - apply (proj2 (operands_required friendly_glibc ["malheur"; "kernel"])).
    split; [reflexivity | discriminate].
  - intros H.
    apply (proj1 (operands_required friendly_glibc
                    ["malheur"; "kernel"; "in"; "-r"; "out"])) in H.
    destruct H as [_ H]. apply H. reflexivity.
Defined.

(** X2.  When no option stops the program and the operands are a known
    task and an input that access() refuses, the run makes one call,
    access on that input, and ends in "Could not access '%s'" on it:
    whatever the task and the other options, no configuration is read
    and no output destination is asked for. *)
Theorem unreadable_input_is_fatal (w : world) (argv : list string)
  (name path : string) (t : malheur_task_t) :
  existsb stops (fst (scan w argv)) = false ->
  snd (scan w argv) = [name; path] ->
  task_of name = Some t ->
  access w path <> 0 ->
  run w argv =
    ([EvAccess path],
     Halt (FatalError (Report "Could not access '%s'" [ArgStr path]))).
Proof.
  intros Hgo Hops Ht Ha. apply run_parse_halt.
  rewrite (parse_options_operands w argv name path Hops Hgo), Ht.
  apply Z.eqb_neq in Ha. rewrite Ha. reflexivity.
Qed.

(** An instance, with the GNU library: [malheur cluster in -t -v],
    nothing readable. *)
Lemma unreadable_input_is_fatal_witness :
  existsb stops
    (fst (scan unreadable_glibc ["malheur"; "cluster"; "in"; "-t"; "-v"])) =
    false /\
  snd (scan unreadable_glibc ["malheur"; "cluster"; "in"; "-t"; "-v"]) =
    ["cluster"; "in"] /\
  task_of "cluster" = Some CLUSTER /\
  access unreadable_glibc "in" <> 0 /\
  run unreadable_glibc ["malheur"; "cluster"; "in"; "-t"; "-v"] =
    ([EvAccess "in"],
     Halt (FatalError (Report "Could not access '%s'" [ArgStr "in"]))).
Proof.
  assert (access unreadable_glibc "in" <> 0) as Ha by discriminate.
  split; [reflexivity|]. split; [reflexivity|]. split; [reflexivity|].
  split; [exact Ha|].
  apply (unreadable_input_is_fatal unreadable_glibc
           ["malheur"; "cluster"; "in"; "-t"; "-v"] "cluster" "in" CLUSTER
           eq_refl eq_refl eq_refl Ha).
Defined.

(** ** What the options leave in the globals *)

Ltac option_effect_cases :=
  unfold option_effect;
  repeat match goal with
         | |- context [if ?b then _ else _] => destruct b eqn:?
         end.

Lemma wrap_int_range z : int_range (wrap_int z).
Proof.
  unfold int_range, wrap_int.
  pose proof (Z.mod_pos_bound (z + 2 ^ 31) (2 ^ 32)). lia.
Qed.

Lemma wrap_int_small z : int_range z -> wrap_int z = z.
Proof.
  unfold int_range, wrap_int. intros H. rewrite Z.mod_small; lia.
Qed.

Lemma wrap_int_add a b : wrap_int (wrap_int a + b) = wrap_int (a + b).
Proof.
  unfold wrap_int. f_equal.
  replace ((a + 2 ^ 31) mod 2 ^ 32 - 2 ^ 31 + b + 2 ^ 31)
    with ((a + 2 ^ 31) mod 2 ^ 32 + b) by lia.
  rewrite Zplus_mod_idemp_l. f_equal. lia.
Qed.

Lemma verbose_after_wrap rs g :
  wrap_int (verbose (fold_left option_effect rs g)) =
  wrap_int (verbose g + Z.of_nat (count_v rs)).
Proof.
  unfold count_v. revert g. induction rs as [|r rs IH]; intros g.
  - cbn. f_equal. lia.
  - cbn [fold_left filter]. rewrite IH. unfold option_effect.
    destruct (Ascii.eqb_spec (ch r) "v") as [E|E].
    + cbn [verbose set_verbose List.length].
      rewrite wrap_int_add. f_equal. lia.
    + repeat match goal with
             | |- context [if ?b then _ else _] => destruct b
             end; reflexivity.
Qed.

Lemma verbose_after_range rs g :
  int_range (verbose g) -> int_range (verbose (fold_left option_effect rs g)).
Proof.
  revert g. induction rs as [|r rs IH]; intros g H; [exact H|].
  cbn [fold_left]. apply IH. unfold option_effect.
  destruct (Ascii.eqb (ch r) "v"); [apply wrap_int_range|].
  repeat match goal with
         | |- context [if ?b then _ else _] => destruct b
         end; exact H.
Qed.

Lemma verbose_after rs g :
  int_range (verbose g) ->
  verbose (fold_left option_effect rs g) =
  wrap_int (verbose g + Z.of_nat (count_v rs)).
Proof.
  intros H. rewrite <- verbose_after_wrap.
  symmetry. apply wrap_int_small, verbose_after_range, H.
Qed.

Lemma config_file_after rs g :
  config_file (fold_left option_effect rs g) = last_arg is_c rs (config_file g).
Proof.
  unfold last_arg. revert g. induction rs as [|r rs IH]; intros g;
    [reflexivity|].
  cbn [fold_left]. rewrite IH. f_equal. unfold option_effect, is_c.
  destruct (Ascii.eqb_spec (ch r) "v") as [E|_]; [rewrite E; reflexivity|].
  destruct (Ascii.eqb (ch r) "c"); [reflexivity|].
  repeat match goal with
         | |- context [if ?b then _ else _] => destruct b
         end; reflexivity.
Qed.

Lemma input_file_after rs g :
  input_file (fold_left option_effect rs g) = input_file g.
Proof.
  revert g. induction rs as [|r rs IH]; intros g; [reflexivity|].
  cbn [fold_left]. rewrite IH. option_effect_cases; reflexivity.
Qed.

Lemma task_after_options rs g :
  task (fold_left option_effect rs g) = task g.
Proof.
  revert g. induction rs as [|r rs IH]; intros g; [reflexivity|].
  cbn [fold_left]. rewrite IH. option_effect_cases; reflexivity.
Qed.

Lemma options_globals_eq rs g :
  int_range (verbose g) ->
  fold_left option_effect rs g = options_globals rs g.
Proof.
  intros H. unfold options_globals.
  rewrite <- (verbose_after rs g H), <- config_file_after,
    <- result_file_after, <- proto_file_after, <- lookup_table_after,
    <- (input_file_after rs g), <- (task_after_options rs g).
  destruct (fold_left option_effect rs g); reflexivity.
Qed.

(** X3.  When no option stops the program, the option loop of
    parse_options makes no call and leaves: in verbose, an int, its
    value plus the number of -v options, wrapped into the range of int
    as the compiled [verbose++] does (so the plain sum as long as that
    stays below 2^31); in config_file, result_file and proto_file, the
    argument of the last -c, of the last -r, and of the last -l or -s,
    each unchanged without such an option; lookup_table set if it was or
    if -t is given; input_file and task untouched.  So the order of
    options of different kinds does not matter, and of repeated options
    the last one counts. *)
Theorem option_loop_globals (rs : list getopt_ret) (g : globals) :
  existsb stops rs = false ->
  int_range (verbose g) ->
  parse_options_loop rs g =
    ([], Done tt
       (Globals (wrap_int (verbose g + Z.of_nat (count_v rs)))
                (last_arg is_c rs (config_file g))
                (last_arg is_r rs (result_file g))
                (input_file g)
                (last_arg is_ls rs (proto_file g))
                (task g)
                (lookup_table g || has_option "t" rs))) /\
  (verbose g + Z.of_nat (count_v rs) < 2 ^ 31 ->
   wrap_int (verbose g + Z.of_nat (count_v rs)) =
   verbose g + Z.of_nat (count_v rs)).
Proof.
  intros H Hv. split.
  - rewrite (parse_options_loop_go rs g H), (options_globals_eq rs g Hv).
    reflexivity.
  - intros Hsum. apply wrap_int_small. unfold int_range in *. lia.
Qed.

(** An instance: -v -r a -t -v -r b, from the initial globals. *)
Lemma option_loop_globals_witness :
  existsb stops
    [GetoptRet "v" None; GetoptRet "r" (Some "a"); GetoptRet "t" None;
     GetoptRet "v" None; GetoptRet "r" (Some "b")] = false /\
  int_range (verbose (initial_globals friendly)) /\
  parse_options_loop
    [GetoptRet "v" None; GetoptRet "r" (Some "a"); GetoptRet "t" None;
     GetoptRet "v" None; GetoptRet "r" (Some "b")]
    (initial_globals friendly) =
    ([], Done tt (Globals 2 (Some "malheur.cfg") (Some "b") None None
                          PROTOTYPE true)).
Proof.
  assert (int_range (verbose (initial_globals friendly))) as Hv
    by (unfold int_range; cbn; lia).
  split; [reflexivity|]. split; [exact Hv|].
  apply (option_loop_globals
           [GetoptRet "v" None; GetoptRet "r" (Some "a"); GetoptRet "t" None;
            GetoptRet "v" None; GetoptRet "r" (Some "b")]
           (initial_globals friendly) eq_refl Hv).
Defined.

(** ** How a run can end *)

(** X7.  Every run ends in one of three ways.  main returns, and then
    with EXIT_SUCCESS; or the program exits at an option, with
    EXIT_SUCCESS too, after a single call that prints the version or the
    usage; or it stops on a fatal error whose format is one of seven:
    missing operands, unknown task, unreadable input, missing output
    (prototype task, kernel task), unreadable configuration, failed
    allocation.  The driver never exits with another status and never
    fails without a report. *)
Theorem run_endings (w : world) (argv : list string) :
  match result (run w argv) with
  | Done status _ => status = EXIT_SUCCESS
  | Halt (Exited status) =>
      status = EXIT_SUCCESS /\
      (trace (run w argv) = [EvPrintVersion] \/
       trace (run w argv) = [EvPrintUsage])
  | Halt (FatalError rep) => In (fmt rep) fatal_formats
  end.
Proof.
  destruct (run_spec_holds w argv); unfold result, trace; cbn [fst snd fmt];
    try (unfold fatal_formats; simpl; tauto).
  - split; [reflexivity|]. destruct H0; subst; auto.
  - unfold sanity_failure in H3.
    destruct (task (parsed w argv t path));
      repeat match type of H3 with
             | context [if ?b then _ else _] => destruct b
             end; try discriminate H3; injection H3 as <-;
      unfold fatal_formats; simpl; tauto.
Qed.

(** X12.  Once start-up has succeeded, the run returns EXIT_SUCCESS
    unless the task is the kernel task and the similarity matrix cannot be
    allocated: the prototype and cluster tasks have no failure of their
    own, and malheur_exit has none. *)
Theorem run_after_start_up (w : world) (argv : list string) (g : globals) :
  result (malheur_init w argv (initial_globals w)) = Done tt g ->
  (result (run w argv) = Done EXIT_SUCCESS g <->
   (task g = KERNEL -> malloc w (kernel_size w g) = true)) /\
  (result (run w argv) <> Done EXIT_SUCCESS g ->
   result (run w argv) = Halt (FatalError alloc_report)).
Proof.
  intros H.
  assert (malheur_init w argv (initial_globals w) =
          (trace (malheur_init w argv (initial_globals w)), Done tt g)) as Hi
    by (rewrite <- H; apply pair_eta).
  rewrite (run_init_done w argv _ _ Hi), after_init_eq.
  unfold task_completes, result.
  destruct (task g) eqn:Ht; cbn [snd].
  - destruct (malloc w (kernel_size w g)); cbn [snd]; split.
    + split; [intros _ _; reflexivity | intros _; reflexivity].
    + intros C. contradiction C. reflexivity.
    + split; [discriminate | intros C; discriminate (C eq_refl)].
    + intros _. reflexivity.
  - split; [split; [discriminate | reflexivity]|].
    intros C. contradiction C. reflexivity.
  - split; [split; [discriminate | reflexivity]|].
    intros C. contradiction C. reflexivity.
Qed.

(** An instance: [malheur -s protos prototype in], all going well. *)
Lemma run_after_start_up_witness :
  result (malheur_init friendly ["malheur"; "-s"; "protos"; "prototype"; "in"]
            (initial_globals friendly)) =
    Done tt (Globals 0 (Some "malheur.cfg") None (Some "in") (Some "protos")
                     PROTOTYPE false) /\
  result (run friendly ["malheur"; "-s"; "protos"; "prototype"; "in"]) =
    Done EXIT_SUCCESS
         (Globals 0 (Some "malheur.cfg") None (Some "in") (Some "protos")
                  PROTOTYPE false).
Proof.
  split; [reflexivity|].
  apply (run_after_start_up friendly
           ["malheur"; "-s"; "protos"; "prototype"; "in"]
           (Globals 0 (Some "malheur.cfg") None (Some "in") (Some "protos")
                    PROTOTYPE false) eq_refl).
  discriminate.
Defined.

(** ** Runs that reach their end *)

Lemma run_done_inv w argv s g :
  result (run w argv) = Done s g ->
  exists name path t,
    existsb stops (fst (scan w argv)) = false /\
    snd (scan w argv) = [name; path] /\
    task_of name = Some t /\
    access w path = 0 /\
    sanity_failure g = None /\
    config_ok w g = true /\
    task_completes w g = true /\
    g = parsed w argv t path /\
    s = EXIT_SUCCESS /\
    trace (run w argv) =
      (EvAccess path :: sanity_warning g ++ init_calls g
       ++ task_calls w g ++ exit_calls g)%list.
Proof.
  intros H. destruct (run_spec_holds w argv); unfold result, trace in *;
    cbn [fst snd] in *; try discriminate H.
  injection H as <- <-. exists name, path, t. repeat split; assumption.
Qed.

(** Splits a trace made of the calls of the driver into its cases. *)
Ltac calls_cases g :=
  unfold sanity_failure, sanity_warning, init_calls, task_calls,
    task_completes, kernel_calls, prototype_calls, cluster_calls,
    exit_calls in *;
  destruct (task g) eqn:?;
  repeat match goal with
         | |- context [if ?b then _ else _] => destruct b eqn:?
         | H : context [if ?b then _ else _] |- _ => destruct b eqn:?
         end.

(** X6.  In a run that reaches the end of main, whatever the task, the
    calls come in pairs: the collection is extracted once and destroyed
    once, the configuration initialised once and destroyed once, every
    malloc is matched by a free, proto_extract by proto_destroy, and
    ftable_init by ftable_destroy. *)
Theorem completed_run_pairs_calls (w : world) (argv : list string)
  (s : Z) (g : globals) :
  result (run w argv) = Done s g ->
  count is_farray_extract (trace (run w argv)) = 1%nat /\
  count is_farray_destroy (trace (run w argv)) = 1%nat /\
  count is_config_init (trace (run w argv)) = 1%nat /\
  count is_config_destroy (trace (run w argv)) = 1%nat /\
  count is_malloc (trace (run w argv)) = count is_free (trace (run w argv)) /\
  count is_proto_extract (trace (run w argv)) =
    count is_proto_destroy (trace (run w argv)) /\
  count is_ftable_init (trace (run w argv)) =
    count is_ftable_destroy (trace (run w argv)).
Proof.
  intros H.
  destruct (run_done_inv w argv s g H)
    as (name & path & t & _ & _ & _ & _ & Hsan & _ & Hm & _ & _ & Htr).
  rewrite Htr. clear Htr H. calls_cases g; try discriminate;
    repeat split; reflexivity.
Qed.

(** An instance: [malheur -t -r out kernel in], all going well. *)
Lemma completed_run_pairs_calls_witness :
  result (run friendly ["malheur"; "-t"; "-r"; "out"; "kernel"; "in"]) =
    Done EXIT_SUCCESS
         (Globals 0 (Some "malheur.cfg") (Some "out") (Some "in") None
                  KERNEL true) /\
  count is_malloc
    (trace (run friendly ["malheur"; "-t"; "-r"; "out"; "kernel"; "in"])) =
  count is_free
    (trace (run friendly ["malheur"; "-t"; "-r"; "out"; "kernel"; "in"])).
Proof.
  split; [reflexivity|].
  apply (completed_run_pairs_calls friendly
           ["malheur"; "-t"; "-r"; "out"; "kernel"; "in"] EXIT_SUCCESS
           (Globals 0 (Some "malheur.cfg") (Some "out") (Some "in") None
                    KERNEL true) eq_refl).
Defined.

Lemma verbose_threshold n : (1 <? Z.of_nat n) = (2 <=? n)%nat.
Proof.
  destruct (Z.ltb_spec 1 (Z.of_nat n)), (Nat.leb_spec 2 n); try reflexivity; lia.
Qed.

Lemma parsed_verbose w argv t path :
  Z.of_nat (count_v (fst (scan w argv))) < 2 ^ 31 ->
  verbose (parsed w argv t path) = Z.of_nat (count_v (fst (scan w argv))).
Proof.
  intros Hn. unfold parsed. cbn [verbose set_input_file set_task].
  rewrite verbose_after by (unfold int_range; cbn; lia).
  cbn [verbose initial_globals]. apply wrap_int_small.
  unfold int_range. lia.
Qed.

(** X4.  On a command line with fewer than 2^31 options -v (as the C
    library in use counts them), in a run that reaches the end of main:
    verbose is the number of -v options, config_print is called exactly
    when there are at least two of them, and proto_print exactly when
    there are at least two and the task is the prototype task.  A single
    -v prints neither. *)
Theorem verbosity_needs_two (w : world) (argv : list string)
  (s : Z) (g : globals) :
  Z.of_nat (count_v (fst (scan w argv))) < 2 ^ 31 ->
  result (run w argv) = Done s g ->
  verbose g = Z.of_nat (count_v (fst (scan w argv))) /\
  existsb is_config_print (trace (run w argv)) =
    (2 <=? count_v (fst (scan w argv)))%nat /\
  existsb is_proto_print (trace (run w argv)) =
    match task g with
    | PROTOTYPE => (2 <=? count_v (fst (scan w argv)))%nat
    | _ => false
    end.
Proof.
  intros Hn H.
  destruct (run_done_inv w argv s g H)
    as (name & path & t & _ & _ & _ & _ & Hsan & _ & Hm & Hg & _ & Htr).
  assert (verbose g = Z.of_nat (count_v (fst (scan w argv)))) as Hv
    by (rewrite Hg; apply parsed_verbose, Hn).
  split; [exact Hv|]. rewrite Htr. clear Htr H.
  rewrite <- verbose_threshold, <- Hv.
  calls_cases g; try discriminate; split; reflexivity.
Qed.

(** An instance, with the GNU library: a single -v, after the operands,
    in [malheur prototype in -v -r out]. *)
Lemma verbosity_needs_two_witness :
  Z.of_nat
    (count_v (fst (scan friendly_glibc
                     ["malheur"; "prototype"; "in"; "-v"; "-r"; "out"]))) <
    2 ^ 31 /\
  result (run friendly_glibc
            ["malheur"; "prototype"; "in"; "-v"; "-r"; "out"]) =
    Done EXIT_SUCCESS
         (Globals 1 (Some "malheur.cfg") (Some "out") (Some "in") None
                  PROTOTYPE false) /\
  existsb is_config_print
    (trace (run friendly_glibc
              ["malheur"; "prototype"; "in"; "-v"; "-r"; "out"])) = false.
Proof.
  assert (Z.of_nat
            (count_v (fst (scan friendly_glibc
                             ["malheur"; "prototype"; "in"; "-v"; "-r"; "out"])))
          < 2 ^ 31) as Hn by reflexivity.
  split; [exact Hn|]. split; [reflexivity|].
  apply (verbosity_needs_two friendly_glibc
           ["malheur"; "prototype"; "in"; "-v"; "-r"; "out"] EXIT_SUCCESS
           (Globals 1 (Some "malheur.cfg") (Some "out") (Some "in") None
                    PROTOTYPE false) Hn eq_refl).
Defined.

(** ** Which files a run uses *)

Lemma is_c_takes_arg x : is_c x = true -> optstring_find x optstring = Some true.
Proof. unfold is_c. intros H. apply Ascii.eqb_eq in H. subst. reflexivity. Qed.

Lemma parsed_config_file w argv t path :
  config_file (parsed w argv t path) =
  last_arg is_c (fst (scan w argv)) (Some (CONFIG_FILE w)).
Proof.
  unfold parsed. cbn [config_file set_input_file set_task].
  rewrite config_file_after. reflexivity.
Qed.

(** The call made by a run that an option stops. *)
Ltac stop_event :=
  match goal with
  | Hd : _ = EvPrintVersion \/ _ = EvPrintUsage |- _ => destruct Hd as [-> | ->]
  end.

(** Finds the calls of a concrete trace that can be the one in [H]. *)
Ltac in_calls H :=
  simpl in H;
  repeat (destruct H as [H|H]; [try discriminate H|]);
  try contradiction.

(** X5.  Whenever config_read_file is called, its file is the argument
    of the last -c option that the C library in use reports, and
    CONFIG_FILE when there is no -c; it is never NULL. *)
Theorem configuration_file_choice (w : world) (argv : list string)
  (f : option string) :
  getopt_sound w argv ->
  In (EvConfigReadFile f) (trace (run w argv)) ->
  f = last_arg is_c (fst (scan w argv)) (Some (CONFIG_FILE w)) /\
  f <> None /\
  (given w "c" argv = false -> f = Some (CONFIG_FILE w)).
Proof.
  intros Hwf H.
  assert (forall t path, f = config_file (parsed w argv t path) ->
          f = last_arg is_c (fst (scan w argv)) (Some (CONFIG_FILE w)) /\
          f <> None /\
          (given w "c" argv = false -> f = Some (CONFIG_FILE w))) as Hf.
  { intros t path ->. rewrite parsed_config_file.
    split; [reflexivity|]. split.
    - apply not_null.
      rewrite (last_arg_null _ _ _ is_c_takes_arg Hwf). reflexivity.
    - intros Hc. apply last_arg_absent. exact Hc. }
  destruct (run_spec_holds w argv); unfold trace in H; cbn [fst] in H;
    try (in_calls H; fail);
    try (stop_event; in_calls H; fail);
    apply (Hf t path);
    remember (parsed w argv t path) as g eqn:Hg; clear Hg Hf;
    calls_cases g; in_calls H; injection H as <-; reflexivity.
Qed.

(** An instance, with the GNU library and -c after the operands:
    [malheur cluster in -c a.cfg -c b.cfg]. *)
Lemma configuration_file_choice_witness :
  getopt_sound friendly_glibc
    ["malheur"; "cluster"; "in"; "-c"; "a.cfg"; "-c"; "b.cfg"] /\
  In (EvConfigReadFile (Some "b.cfg"))
     (trace (run friendly_glibc
        ["malheur"; "cluster"; "in"; "-c"; "a.cfg"; "-c"; "b.cfg"])) /\
  Some "b.cfg" =
    last_arg is_c
      (fst (scan friendly_glibc
              ["malheur"; "cluster"; "in"; "-c"; "a.cfg"; "-c"; "b.cfg"]))
      (Some (CONFIG_FILE friendly_glibc)).
Proof.
  assert (getopt_sound friendly_glibc
            ["malheur"; "cluster"; "in"; "-c"; "a.cfg"; "-c"; "b.cfg"])
    as Hwf by sound_by_evaluation.
  assert (In (EvConfigReadFile (Some "b.cfg"))
            (trace (run friendly_glibc
               ["malheur"; "cluster"; "in"; "-c"; "a.cfg"; "-c"; "b.cfg"])))
    as H by (vm_compute; tauto).
  split; [exact Hwf|]. split; [exact H|].
  apply (configuration_file_choice friendly_glibc
           ["malheur"; "cluster"; "in"; "-c"; "a.cfg"; "-c"; "b.cfg"]
           (Some "b.cfg") Hwf H).
Defined.

(** X9.  The collection is only ever extracted from the input operand,
    and only after access() has accepted it: every call of farray_extract
    in a run has for argument the second of the two operands that the C
    library in use leaves after the options, on which access returned 0
    in a call the run made. *)
Theorem extraction_reads_checked_input (w : world) (argv : list string)
  (p : option string) :
  In (EvFarrayExtract p) (trace (run w argv)) ->
  exists name path,
    snd (scan w argv) = [name; path] /\
    p = Some path /\
    access w path = 0 /\
    In (EvAccess path) (trace (run w argv)).
Proof.
  intros H.
  destruct (run_spec_holds w argv); unfold trace in *; cbn [fst] in *;
    try (in_calls H; fail);
    try (stop_event; in_calls H; fail);
    exists name, path;
    (split; [assumption|]); (split; [|split; [assumption | left; reflexivity]]);
    assert (input_file (parsed w argv t path) = Some path) as Hin
      by reflexivity;
    remember (parsed w argv t path) as g eqn:Hg; clear Hg;
    calls_cases g; in_calls H; injection H as <-; exact Hin.
Qed.

(** An instance, with the GNU library and an option after the operands:
    [malheur cluster in -t]. *)
Lemma extraction_reads_checked_input_witness :
  In (EvFarrayExtract (Some "in"))
     (trace (run friendly_glibc ["malheur"; "cluster"; "in"; "-t"])) /\
  exists name path,
    snd (scan friendly_glibc ["malheur"; "cluster"; "in"; "-t"]) =
      [name; path] /\
    Some "in" = Some path /\
    access friendly_glibc path = 0 /\
    In (EvAccess path)
       (trace (run friendly_glibc ["malheur"; "cluster"; "in"; "-t"])).
Proof.
  assert (In (EvFarrayExtract (Some "in"))
            (trace (run friendly_glibc ["malheur"; "cluster"; "in"; "-t"])))
    as H by (vm_compute; tauto).
  split; [exact H|].
  apply (extraction_reads_checked_input friendly_glibc
           ["malheur"; "cluster"; "in"; "-t"] (Some "in") H).
Defined.

(** X10.  No result is ever written to a NULL destination: the file given
    to export_kernel or to export_proto is the argument of the last -r
    option that the C library in use reports, the file given to
    proto_save_file is the argument of the last -l or -s option, and a
    run calls them only when that option was given. *)
Theorem output_destinations (w : world) (argv : list string)
  (p : option string) :
  (In (EvExportKernel p) (trace (run w argv)) \/
   In (EvExportProto p) (trace (run w argv)) ->
   p = last_arg is_r (fst (scan w argv)) None /\ p <> None /\
   given w "r" argv = true) /\
  (In (EvProtoSaveFile p) (trace (run w argv)) ->
   p = last_arg is_ls (fst (scan w argv)) None /\ p <> None /\
   (given w "l" argv || given w "s" argv)%bool = true).
Proof.
  assert (forall t path, p = result_file (parsed w argv t path) ->
          is_null p = false ->
          p = last_arg is_r (fst (scan w argv)) None /\ p <> None /\
          given w "r" argv = true) as Hr.
  { intros t path -> Hn.
    split; [apply parsed_result_file_eq|]. split; [apply not_null, Hn|].
    destruct (given w "r" argv) eqn:Hg; [reflexivity|].
    rewrite (parsed_result_file_absent w argv t path Hg) in Hn.
    discriminate Hn. }
  assert (forall t path, p = proto_file (parsed w argv t path) ->
          is_null p = false ->
          p = last_arg is_ls (fst (scan w argv)) None /\ p <> None /\
          (given w "l" argv || given w "s" argv)%bool = true) as Hs.
  { intros t path -> Hn.
    split; [apply parsed_proto_file_eq|]. split; [apply not_null, Hn|].
    destruct (given w "l" argv) eqn:Hl; [reflexivity|].
    destruct (given w "s" argv) eqn:Hs; [reflexivity|].
    rewrite (parsed_proto_file_absent w argv t path Hl Hs) in Hn.
    discriminate Hn. }
  destruct (run_spec_holds w argv); unfold trace; cbn [fst].
  1: stop_event.
  1-6: split; [intros [H'|H'] | intros H']; in_calls H'.
  all: specialize (Hr t path); specialize (Hs t path);
    remember (parsed w argv t path) as g eqn:Hg; clear Hg;
    (split; [intros [H'|H'] | intros H']);
    calls_cases g; try discriminate; in_calls H'; injection H' as <-;
    first [apply Hr | apply Hs]; (reflexivity || assumption).
Qed.

(** An instance, with the GNU library and -r after the operands:
    [malheur kernel in -r out] exports to "out". *)
Lemma output_destinations_witness :
  In (EvExportKernel (Some "out"))
     (trace (run friendly_glibc ["malheur"; "kernel"; "in"; "-r"; "out"])) /\
  Some "out" =
    last_arg is_r
      (fst (scan friendly_glibc ["malheur"; "kernel"; "in"; "-r"; "out"]))
      None /\
  given friendly_glibc "r" ["malheur"; "kernel"; "in"; "-r"; "out"] = true.
Proof.
  assert (In (EvExportKernel (Some "out"))
            (trace (run friendly_glibc
                      ["malheur"; "kernel"; "in"; "-r"; "out"])))
    as H by (vm_compute; tauto).
  split; [exact H|].
  destruct (output_destinations friendly_glibc
              ["malheur"; "kernel"; "in"; "-r"; "out"] (Some "out"))
    as [Hr _].
  destruct (Hr (or_introl H)) as (Hp & _ & Hg).
  split; [exact Hp | exact Hg].
Defined.

(** ** Order of the calls *)

(** X8.  Whenever a run extracts the collection, everything of start-up
    has happened before the call of farray_extract: the run began with
    access() on the input operand, the configuration has been read and
    checked, the lookup table has been initialised if, and only if, -t
    is among the options the C library in use reports, it has not been
    destroyed, and no other call on the collection has been made. *)
Theorem start_up_precedes_extraction (w : world) (argv : list string) :
  existsb is_farray_extract (trace (run w argv)) = true ->
  existsb computes
    (prefix_until is_farray_extract (trace (run w argv))) = false /\
  existsb is_config_check
    (prefix_until is_farray_extract (trace (run w argv))) = true /\
  existsb is_ftable_init
    (prefix_until is_farray_extract (trace (run w argv))) = given w "t" argv /\
  existsb is_ftable_destroy
    (prefix_until is_farray_extract (trace (run w argv))) = false /\
  exists name path,
    snd (scan w argv) = [name; path] /\
    hd_error (prefix_until is_farray_extract (trace (run w argv))) =
      Some (EvAccess path).
Proof.
  intros H.
  destruct (run_spec_holds w argv); unfold trace in *; cbn [fst] in *;
    try discriminate H;
    try (stop_event; discriminate H);
    try (remember (parsed w argv t path) as g eqn:Hg; clear Hg;
         calls_cases g; discriminate H);
    rewrite <- (parsed_lookup_table w argv t path);
    (repeat split; [| | | | exists name, path; split; [assumption|]]);
    remember (parsed w argv t path) as g eqn:Hg; clear Hg;
    calls_cases g; try discriminate; reflexivity.
Qed.

(** An instance, with the GNU library and -t after the operands:
    [malheur prototype in -t -r out]. *)
Lemma start_up_precedes_extraction_witness :
  existsb is_farray_extract
    (trace (run friendly_glibc
              ["malheur"; "prototype"; "in"; "-t"; "-r"; "out"])) = true /\
  given friendly_glibc "t"
    ["malheur"; "prototype"; "in"; "-t"; "-r"; "out"] = true /\
  existsb is_ftable_init
    (prefix_until is_farray_extract
       (trace (run friendly_glibc
          ["malheur"; "prototype"; "in"; "-t"; "-r"; "out"]))) = true.
Proof.
  split; [reflexivity|]. split; [reflexivity|].
  apply (start_up_precedes_extraction friendly_glibc
           ["malheur"; "prototype"; "in"; "-t"; "-r"; "out"] eq_refl).
Defined.

(** ** What a completed task has written *)

(** X11.  A run that reaches the end of main has done the work of its
    task.  In the prototype task, prototypes were extracted once and
    written at least once, by export_proto or by proto_save_file; in the
    kernel task, the matrix was computed once by farray_dot and exported
    once by export_kernel, and no prototype function was called. *)
Theorem completed_run_writes_result (w : world) (argv : list string)
  (s : Z) (g : globals) :
  result (run w argv) = Done s g ->
  match task g with
  | PROTOTYPE =>
      count is_proto_extract (trace (run w argv)) = 1%nat /\
      existsb is_proto_output (trace (run w argv)) = true /\
      existsb is_export_kernel (trace (run w argv)) = false
  | KERNEL =>
      count is_farray_dot (trace (run w argv)) = 1%nat /\
      count is_export_kernel (trace (run w argv)) = 1%nat /\
      existsb is_proto_event (trace (run w argv)) = false
  | CLUSTER => True
  end.
Proof.
  intros H.
  destruct (run_done_inv w argv s g H)
    as (name & path & t & _ & _ & _ & _ & Hsan & _ & Hm & _ & _ & Htr).
  rewrite Htr. clear Htr H. calls_cases g; try discriminate;
    repeat split; reflexivity.
Qed.

(** An instance: [malheur -s protos prototype in]. *)
Lemma completed_run_writes_result_witness :
  result (run friendly ["malheur"; "-s"; "protos"; "prototype"; "in"]) =
    Done EXIT_SUCCESS
         (Globals 0 (Some "malheur.cfg") None (Some "in") (Some "protos")
                  PROTOTYPE false) /\
  existsb is_proto_output
    (trace (run friendly ["malheur"; "-s"; "protos"; "prototype"; "in"])) = true.
Proof.
  split; [reflexivity|].
  apply (completed_run_writes_result friendly
           ["malheur"; "-s"; "protos"; "prototype"; "in"] EXIT_SUCCESS
           (Globals 0 (Some "malheur.cfg") None (Some "in") (Some "protos")
                    PROTOTYPE false) eq_refl).
Defined.
